(** * Shallow embedding of the simulation core of Bounding_AI_AGENTS

    Modelled files: [src/sim/types.py], [src/sim/order_book.py],
    [src/sim/compute.py] and [src/sim/market.py].

    Modelling conventions.
    - Python [float] prices, cash and latencies are modelled as exact
      rationals [Q]; Python [int] as [Z].
    - A Python [dict] is an association list in insertion order; a key is
      found with the key type's [==] ([Qeq_bool] for float keys,
      [String.eqb] for agent ids, [Z.eqb] for order ids).
    - Code that mutates [self] and may raise runs in the state/exception
      monad [SE]: an exception keeps the state reached when it was raised,
      as Python keeps the mutations done before a [raise].
    - A [PriceLevel] object held by a local variable is the object stored
      in the book's dict; it is read and written through the dict under its
      key, which models the aliasing of the source. *)

From Stdlib Require Import ZArith QArith Qround Qminmax Qabs List String Bool Lia.
From Stdlib Require Import Permutation Sorting.Sorted Lqa.
Import ListNotations.

Open Scope string_scope.
Open Scope list_scope.
Open Scope Z_scope.

(* ------------------------------------------------------------------ *)
(** ** A state monad with Python exceptions *)

Inductive Exc : Type :=
| ValueError
| TypeError
| KeyError
| AssertionError.

Inductive res (A : Type) : Type :=
| Ok : A -> res A
| Err : Exc -> res A.
Arguments Ok {A} _.
Arguments Err {A} _.

Definition SE (S A : Type) : Type := S -> res A * S.

Definition ret {S A} (a : A) : SE S A := fun s => (Ok a, s).

Definition bind {S A B} (m : SE S A) (k : A -> SE S B) : SE S B :=
  fun s =>
    match m s with
    | (Ok a, s') => k a s'
    | (Err e, s') => (Err e, s')
    end.

Definition get {S} : SE S S := fun s => (Ok s, s).
Definition modify {S} (f : S -> S) : SE S unit := fun s => (Ok tt, f s).
Definition raise {S A} (e : Exc) : SE S A := fun s => (Err e, s).

Notation "x <- m ;; k" := (bind m (fun x => k))
  (at level 61, m at next level, right associativity).
Notation "' p <- m ;; k" := (bind m (fun x => match x with p => k end))
  (at level 61, p pattern, m at next level, right associativity).
Notation "m ;;; k" := (bind m (fun _ => k))
  (at level 61, right associativity).

(* ------------------------------------------------------------------ *)
(** ** Python dicts as association lists *)

Section Dict.
Context {K V : Type} (keq : K -> K -> bool).

(** [d.get(k)] *)
Fixpoint dict_get (d : list (K * V)) (k : K) : option V :=
  match d with
  | [] => None
  | (k', v) :: d' => if keq k' k then Some v else dict_get d' k
  end.

(** [d[k] = v]: replaces the value of an existing key (the key object is
    kept), appends a new key at the end. *)
Fixpoint dict_set (d : list (K * V)) (k : K) (v : V) : list (K * V) :=
  match d with
  | [] => [(k, v)]
  | (k', v') :: d' =>
      if keq k' k then (k', v) :: d' else (k', v') :: dict_set d' k v
  end.

(** removal of the (unique) entry whose key equals [k] *)
Fixpoint dict_remove (d : list (K * V)) (k : K) : list (K * V) :=
  match d with
  | [] => []
  | (k', v') :: d' => if keq k' k then d' else (k', v') :: dict_remove d' k
  end.
End Dict.

(** [a < b] and [a > b] on floats *)
Definition Qltb (a b : Q) : bool := negb (Qle_bool b a).

(** Python [max(keys)]: the running maximum is replaced only by a strictly
    greater item. *)
Definition py_max (l : list Q) : option Q :=
  match l with
  | [] => None
  | x :: r => Some (fold_left (fun m y => if Qltb m y then y else m) r x)
  end.

(** Python [min(keys)] *)
Definition py_min (l : list Q) : option Q :=
  match l with
  | [] => None
  | x :: r => Some (fold_left (fun m y => if Qltb y m then y else m) r x)
  end.

(** Python [round(x)] on a float: round half to even. *)
Definition py_round (x : Q) : Z :=
  let f := Qfloor x in
  let r := (x - inject_Z f)%Q in
  if Qltb r (1 # 2) then f
  else if Qltb (1 # 2) r then f + 1
  else if Z.even f then f else f + 1.

(* ------------------------------------------------------------------ *)
(** ** [src/sim/types.py] *)

Inductive Side : Type := BUY | SELL.

Definition side_eqb (a b : Side) : bool :=
  match a, b with
  | BUY, BUY | SELL, SELL => true
  | _, _ => false
  end.

(** [Side.value] *)
Definition side_value (s : Side) : string :=
  match s with BUY => "BUY" | SELL => "SELL" end.

Record Order : Type := {
  o_id : Z;
  o_agent_id : string;
  o_side : Side;
  o_price : option Q;       (* None for pure market orders *)
  o_qty : Z;
  o_ts : Z;
  o_is_market : bool
}.

Record Trade : Type := {
  buy_order_id : Z;
  sell_order_id : Z;
  buy_agent_id : string;
  sell_agent_id : string;
  tr_price : Q;
  tr_qty : Z;
  tr_ts : Z
}.

(** Python values passed as keyword arguments or written to a JSON record. *)
Inductive PyVal : Type :=
| PInt (z : Z)
| PFloat (q : Q)
| PStr (s : string)
| PNone.

Definition opt_float (o : option Q) : PyVal :=
  match o with Some q => PFloat q | None => PNone end.

(** The fields the frozen dataclass [Trade] declares, in order. *)
Definition Trade_fields : list string :=
  ["buy_order_id"; "sell_order_id"; "buy_agent_id"; "sell_agent_id";
   "price"; "qty"; "ts"].

(** The generated [Trade.__init__] called with keyword arguments: an
    unexpected keyword argument raises [TypeError], as does a missing one.
    (The dataclass checks no types; every call of the source passes an int,
    a str or a float where the field expects one, the only calls modelled.) *)
Definition Trade_init {S} (kw : list (string * PyVal)) : SE S Trade :=
  if forallb (fun kv => existsb (String.eqb (fst kv)) Trade_fields) kw then
    match dict_get String.eqb kw "buy_order_id", dict_get String.eqb kw "sell_order_id",
          dict_get String.eqb kw "buy_agent_id", dict_get String.eqb kw "sell_agent_id",
          dict_get String.eqb kw "price", dict_get String.eqb kw "qty",
          dict_get String.eqb kw "ts" with
    | Some (PInt bo), Some (PInt so), Some (PStr ba), Some (PStr sa),
      Some (PFloat p), Some (PInt q), Some (PInt ts) =>
        ret {| buy_order_id := bo; sell_order_id := so; buy_agent_id := ba;
               sell_agent_id := sa; tr_price := p; tr_qty := q; tr_ts := ts |}
    | _, _, _, _, _, _, _ => raise TypeError
    end
  else raise TypeError.

(* ------------------------------------------------------------------ *)
(** ** [src/sim/order_book.py] *)

Record PriceLevel : Type := {
  lvl_price : Q;
  lvl_queue : list Order     (* the deque, left end first *)
}.

Definition set_queue (l : PriceLevel) (q : list Order) : PriceLevel :=
  {| lvl_price := lvl_price l; lvl_queue := q |}.

Record OrderBook : Type := {
  tick : Q;
  bids : list (Q * PriceLevel);
  asks : list (Q * PriceLevel);
  id_index : list (Z * (Q * Side))
}.

Definition set_bids (b : OrderBook) d : OrderBook :=
  {| tick := tick b; bids := d; asks := asks b; id_index := id_index b |}.
Definition set_asks (b : OrderBook) d : OrderBook :=
  {| tick := tick b; bids := bids b; asks := d; id_index := id_index b |}.
Definition set_id_index (b : OrderBook) i : OrderBook :=
  {| tick := tick b; bids := bids b; asks := asks b; id_index := i |}.

(** [OrderBook(tick_size)] *)
Definition new_book (tick_size : Q) : OrderBook :=
  {| tick := tick_size; bids := []; asks := []; id_index := [] |}.

(** [self._bids if side == Side.BUY else self._asks] *)
Definition side_book (b : OrderBook) (s : Side) : list (Q * PriceLevel) :=
  match s with BUY => bids b | SELL => asks b end.

Definition set_side_book (b : OrderBook) (s : Side) d : OrderBook :=
  match s with BUY => set_bids b d | SELL => set_asks b d end.

(** reading the level object stored under key [k] ([book[k]]) *)
Definition get_level (s : Side) (k : Q) : SE OrderBook PriceLevel :=
  fun b =>
    match dict_get Qeq_bool (side_book b s) k with
    | Some l => (Ok l, b)
    | None => (Err KeyError, b)
    end.

(** writing back the level object stored under key [k] *)
Definition put_level (s : Side) (k : Q) (l : PriceLevel) : SE OrderBook unit :=
  modify (fun b => set_side_book b s (dict_set Qeq_bool (side_book b s) k l)).

(** [del book[k]] *)
Definition del_level (s : Side) (k : Q) : SE OrderBook unit :=
  fun b =>
    match dict_get Qeq_bool (side_book b s) k with
    | Some _ => (Ok tt, set_side_book b s (dict_remove Qeq_bool (side_book b s) k))
    | None => (Err KeyError, b)
    end.

(** [self._id_index.pop(oid, None)] *)
Definition idx_pop (oid : Z) : SE OrderBook unit :=
  modify (fun b => set_id_index b (dict_remove Z.eqb (id_index b) oid)).

(** [del self._id_index[oid]] *)
Definition idx_del (oid : Z) : SE OrderBook unit :=
  fun b =>
    match dict_get Z.eqb (id_index b) oid with
    | Some _ => (Ok tt, set_id_index b (dict_remove Z.eqb (id_index b) oid))
    | None => (Err KeyError, b)
    end.

(** [_conform_price] *)
Definition conform_price (tick_size price : Q) : bool :=
  Qltb (Qabs (inject_Z (py_round (price / tick_size)) * tick_size - price))
       (1 # 1000000000).

(** [_best_bid] / [_best_ask]: the key [p] of the best level, the level
    itself being [book[p]]; [None] when the side is empty. *)
Definition best_key (b : OrderBook) (s : Side) : option Q :=
  match s with
  | BUY => py_max (map fst (bids b))
  | SELL => py_min (map fst (asks b))
  end.

(** [top_of_book] *)
Definition top_of_book : SE OrderBook (option Q * option Q) :=
  b <- get ;;
  bb <- (match best_key b BUY with
         | Some p => l <- get_level BUY p ;; ret (Some (lvl_price l))
         | None => ret None
         end) ;;
  ba <- (match best_key b SELL with
         | Some p => l <- get_level SELL p ;; ret (Some (lvl_price l))
         | None => ret None
         end) ;;
  ret (bb, ba).

Fixpoint sum_qty (q : list Order) : Z :=
  match q with [] => 0 | o :: q' => o_qty o + sum_qty q' end.

(** [depth_at_level] *)
Definition depth_at_level (b : OrderBook) (price : Q) (s : Side) : Z :=
  match dict_get Qeq_bool (side_book b s) price with
  | None => 0
  | Some l => sum_qty (lvl_queue l)
  end.

(** The resting order with its quantity reduced ([new_rest] /
    the residual [resting] of [place_limit]). *)
Definition with_qty (o : Order) (q : Z) : Order :=
  {| o_id := o_id o; o_agent_id := o_agent_id o; o_side := o_side o;
     o_price := o_price o; o_qty := q; o_ts := o_ts o; o_is_market := false |}.

(** The [Trade(...)] call of [_execute_against], keyword arguments as in
    the source. *)
Definition trade_kwargs (take_side : Side) (resting : Order) (taker_agent : string)
    (price : Q) (traded ts : Z) (taker_limit : option Q) : list (string * PyVal) :=
  match take_side with
  | BUY =>
      [("buy_order_id", PInt (-1)); ("sell_order_id", PInt (o_id resting));
       ("buy_agent_id", PStr taker_agent); ("sell_agent_id", PStr (o_agent_id resting));
       ("price", PFloat price); ("qty", PInt traded); ("ts", PInt ts);
       ("buyer_limit", opt_float taker_limit); ("seller_limit", opt_float (o_price resting))]
  | SELL =>
      [("buy_order_id", PInt (o_id resting)); ("sell_order_id", PInt (-1));
       ("buy_agent_id", PStr (o_agent_id resting)); ("sell_agent_id", PStr taker_agent);
       ("price", PFloat price); ("qty", PInt traded); ("ts", PInt ts);
       ("buyer_limit", opt_float (o_price resting)); ("seller_limit", opt_float taker_limit)]
  end.

(** The [while remaining > 0 and level.queue] loop of [_execute_against] on
    the level stored under key [k] of side [s].  Every pass either pops the
    head or brings [remaining] to 0, so [S (len queue)] passes suffice. *)
Fixpoint execute_loop (fuel : nat) (s : Side) (k : Q) (qty remaining : Z)
    (take_side : Side) (ts : Z) (taker_agent : string) (taker_limit : option Q)
    (trades : list Trade) : SE OrderBook (list Trade * Z) :=
  match fuel with
  | O => ret (trades, qty - remaining)
  | S fuel' =>
      level <- get_level s k ;;
      match lvl_queue level with
      | resting :: rest =>
          if 0 <? remaining then
            let traded := Z.min remaining (o_qty resting) in
            let price := lvl_price level in
            tr <- Trade_init (trade_kwargs take_side resting taker_agent price traded ts taker_limit) ;;
            let remaining := remaining - traded in
            (if traded =? o_qty resting then
               put_level s k (set_queue level rest) ;;;
               idx_pop (o_id resting)
             else
               put_level s k (set_queue level (with_qty resting (o_qty resting - traded) :: rest))) ;;;
            execute_loop fuel' s k qty remaining take_side ts taker_agent taker_limit (trades ++ [tr])
          else ret (trades, qty - remaining)
      | [] => ret (trades, qty - remaining)
      end
  end.

(** [_execute_against(level, qty, take_side, ts, taker_agent, taker_limit)]
    where [level] is [book[k]] of side [s]. *)
Definition execute_against (s : Side) (k : Q) (qty : Z) (take_side : Side) (ts : Z)
    (taker_agent : string) (taker_limit : option Q) : SE OrderBook (list Trade * Z) :=
  level <- get_level s k ;;
  execute_loop (S (List.length (lvl_queue level))) s k qty qty take_side ts taker_agent taker_limit [].

(** The matching loop shared by [place_limit] and [place_market]:
    [opp] is the side matched against, [crosses best_price] is false when
    the loop breaks on price ([place_market] never breaks).  Every pass
    deletes the best level or ends with [remaining <= 0], so
    [S (len book)] passes suffice. *)
Fixpoint match_loop (fuel : nat) (opp : Side) (crosses : Q -> bool) (o : Order)
    (taker_limit : option Q) (remaining : Z) (trades : list Trade)
    : SE OrderBook (list Trade * Z) :=
  match fuel with
  | O => ret (trades, remaining)
  | S fuel' =>
      b <- get ;;
      if (0 <? remaining) && negb (match side_book b opp with [] => true | _ => false end) then
        match best_key b opp with
        | None => raise AssertionError
        | Some p =>
            best <- get_level opp p ;;
            if negb (crosses (lvl_price best)) then ret (trades, remaining)
            else
              ' (made, filled) <- execute_against opp p remaining (o_side o) (o_ts o)
                                    (o_agent_id o) taker_limit ;;
              best <- get_level opp p ;;
              (match lvl_queue best with
               | [] => del_level opp (lvl_price best)
               | _ => ret tt
               end) ;;;
              match_loop fuel' opp crosses o taker_limit (remaining - filled) (trades ++ made)
        end
      else ret (trades, remaining)
  end.

Definition opposite (s : Side) : Side := match s with BUY => SELL | SELL => BUY end.

(** [place_limit] *)
Definition place_limit (o : Order) : SE OrderBook (list Trade) :=
  if o_is_market o then raise ValueError else
  match o_price o with
  | None => raise AssertionError
  | Some price =>
      b <- get ;;
      if negb (conform_price (tick b) price) then raise ValueError else
      let crosses := match o_side o with
                     | BUY => fun best => negb (Qltb price best)
                     | SELL => fun best => negb (Qltb best price)
                     end in
      let opp := opposite (o_side o) in
      ' (trades, remaining) <- match_loop (S (List.length (side_book b opp))) opp crosses o
                                 (Some price) (o_qty o) [] ;;
      if 0 <? remaining then
        let resting := with_qty o remaining in
        b <- get ;;
        let lvl := match dict_get Qeq_bool (side_book b (o_side o)) price with
                   | Some l => l
                   | None => {| lvl_price := price; lvl_queue := [] |}
                   end in
        put_level (o_side o) price (set_queue lvl (lvl_queue lvl ++ [resting])) ;;;
        modify (fun b => set_id_index b (dict_set Z.eqb (id_index b) (o_id resting) (price, o_side o))) ;;;
        ret trades
      else ret trades
  end.

(** [place_market] *)
Definition place_market (o : Order) : SE OrderBook (list Trade) :=
  if negb (o_is_market o) then raise ValueError else
  b <- get ;;
  let opp := opposite (o_side o) in
  ' (trades, _) <- match_loop (S (List.length (side_book b opp))) opp (fun _ => true) o
                     None (o_qty o) [] ;;
  ret trades.

(** The [while lvl.queue: ... popleft ...] loop of [cancel]: drops the
    first order with the given id, keeps the others in order. *)
Fixpoint remove_first_id (oid : Z) (q : list Order) : bool * list Order :=
  match q with
  | [] => (false, [])
  | o :: q' =>
      if o_id o =? oid then (true, q')
      else let '(r, q'') := remove_first_id oid q' in (r, o :: q'')
  end.

(** [cancel] *)
Definition cancel (order_id : Z) : SE OrderBook bool :=
  b <- get ;;
  match dict_get Z.eqb (id_index b) order_id with
  | None => ret false
  | Some (price, s) =>
      match dict_get Qeq_bool (side_book b s) price with
      | None => ret false
      | Some lvl =>
          let '(removed, newq) := remove_first_id order_id (lvl_queue lvl) in
          put_level s price (set_queue lvl newq) ;;;
          (match newq with [] => del_level s price | _ => ret tt end) ;;;
          (if removed then idx_del order_id else ret tt) ;;;
          ret removed
      end
  end.

(* ------------------------------------------------------------------ *)
(** ** [src/sim/compute.py] *)

Record ComputeBudget : Type := {
  capacity_tokens : Z;
  refill_tokens : Z           (* per tick *)
}.

Record LatencyModel : Type := {
  base_ms : Q;
  ms_per_token : Q;
  jitter_ms : Q
}.

Record AgentComputeState : Type := {
  tokens : Z;
  budget : ComputeBudget;
  latency : LatencyModel
}.

Definition set_tokens (st : AgentComputeState) (n : Z) : AgentComputeState :=
  {| tokens := n; budget := budget st; latency := latency st |}.

(** [refill] *)
Definition refill (st : AgentComputeState) : AgentComputeState :=
  set_tokens st (Z.min (capacity_tokens (budget st)) (tokens st + refill_tokens (budget st))).

(** [consume]: returns [(used, degraded_flag)] and the updated state. *)
Definition consume (st : AgentComputeState) (requested : Z) : (Z * bool) * AgentComputeState :=
  if requested <=? tokens st then ((requested, false), set_tokens st (tokens st - requested))
  else ((0, true), st).

(** [ScheduledIntent]; every intent the Market builds carries a side and a
    quantity, so those two fields are not optional here. *)
Record ScheduledIntent : Type := {
  arrival_t : Z;
  seq : Z;
  intent_type : string;
  si_agent_id : string;
  si_side : Side;
  si_price : option Q;
  si_qty : Z;
  tokens_used : Z;
  si_latency_ms : Q
}.

(** The dataclass order ([order=True]): [(arrival_t, seq)] lexicographic. *)
Definition si_lt (a b : ScheduledIntent) : bool :=
  (arrival_t a <? arrival_t b) || ((arrival_t a =? arrival_t b) && (seq a <? seq b)).

(** [LatencyQueue].  The heap [_pq] is modelled as the multiset of its
    items (a list in any order); [heapq]'s array layout is not modelled,
    only its contract: [heappush] adds an item, [_pq[0]] and [heappop] give
    an item that is least for the dataclass order. *)
Record LatencyQueue : Type := {
  pq : list ScheduledIntent;
  lq_seq : Z
}.

Definition new_latq : LatencyQueue := {| pq := []; lq_seq := 0 |}.

(** [heapq.heappush] *)
Definition push (q : LatencyQueue) (item : ScheduledIntent) : LatencyQueue :=
  {| pq := pq q ++ [item]; lq_seq := lq_seq q |}.

(** [next_seq] *)
Definition next_seq (q : LatencyQueue) : Z * LatencyQueue :=
  (lq_seq q + 1, {| pq := pq q; lq_seq := lq_seq q + 1 |}).

(** A least item of [x :: l] and the remaining items. *)
Fixpoint select_min (x : ScheduledIntent) (l : list ScheduledIntent)
    : ScheduledIntent * list ScheduledIntent :=
  match l with
  | [] => (x, [])
  | y :: l' =>
      if si_lt y x then let '(m, r) := select_min y l' in (m, x :: r)
      else let '(m, r) := select_min x l' in (m, y :: r)
  end.

(** [while self._pq and self._pq[0].arrival_t <= t:
       out.append(heapq.heappop(self._pq))]; each pass removes an item. *)
Fixpoint pop_ready_loop (fuel : nat) (t : Z) (h : list ScheduledIntent)
    (out : list ScheduledIntent) : list ScheduledIntent * list ScheduledIntent :=
  match fuel with
  | O => (out, h)
  | S fuel' =>
      match h with
      | [] => (out, h)
      | x :: l =>
          let '(m, r) := select_min x l in
          if arrival_t m <=? t then pop_ready_loop fuel' t r (out ++ [m])
          else (out, h)
      end
  end.

(** [pop_ready(t)]: the returned list and the queue left behind. *)
Definition pop_ready (t : Z) (q : LatencyQueue) : list ScheduledIntent * LatencyQueue :=
  let '(out, h) := pop_ready_loop (List.length (pq q)) t (pq q) [] in
  (out, {| pq := h; lq_seq := lq_seq q |}).

(* ------------------------------------------------------------------ *)
(** ** [src/sim/market.py] *)

Record AgentState : Type := {
  cash : Q;
  inventory : Z;
  last_value_price : option Q
}.

(** [AgentState()] *)
Definition AgentState0 : AgentState :=
  {| cash := 0%Q; inventory := 0; last_value_price := None |}.

Record MarketConfig : Type := {
  tick_size : Q;
  fee_per_message : Q;
  fee_per_share : Q;
  tick_duration_ms : Q
}.

(** The Market's attributes.  The per-agent and per-step log files are
    write-only sinks and are not modelled; the trade log is, as the list
    of records written to it ([None] when no log is attached).
    [random.Random] is an arbitrary sequence of draws in [[0, 1)] read at
    position [rng_pos]. *)
Record Market : Type := {
  cfg : MarketConfig;
  m_book : OrderBook;
  t : Z;
  agents : list (string * AgentState);
  next_order_id : Z;
  last_trade_price : option Q;
  trades_log : option (list (list (string * PyVal)));
  rng_draws : nat -> Q;
  rng_pos : nat;
  m_compute : list (string * AgentComputeState);
  latq : LatencyQueue;
  trades_this_tick : Z;
  volume_this_tick : Z;
  messages_this_tick : Z
}.

Section Setters.
Variable m : Market.
Definition set_book b := {| cfg := cfg m; m_book := b; t := t m; agents := agents m; next_order_id := next_order_id m; last_trade_price := last_trade_price m; trades_log := trades_log m; rng_draws := rng_draws m; rng_pos := rng_pos m; m_compute := m_compute m; latq := latq m; trades_this_tick := trades_this_tick m; volume_this_tick := volume_this_tick m; messages_this_tick := messages_this_tick m |}.
Definition set_agents a := {| cfg := cfg m; m_book := m_book m; t := t m; agents := a; next_order_id := next_order_id m; last_trade_price := last_trade_price m; trades_log := trades_log m; rng_draws := rng_draws m; rng_pos := rng_pos m; m_compute := m_compute m; latq := latq m; trades_this_tick := trades_this_tick m; volume_this_tick := volume_this_tick m; messages_this_tick := messages_this_tick m |}.
Definition set_next_order_id n := {| cfg := cfg m; m_book := m_book m; t := t m; agents := agents m; next_order_id := n; last_trade_price := last_trade_price m; trades_log := trades_log m; rng_draws := rng_draws m; rng_pos := rng_pos m; m_compute := m_compute m; latq := latq m; trades_this_tick := trades_this_tick m; volume_this_tick := volume_this_tick m; messages_this_tick := messages_this_tick m |}.
Definition set_last_trade_price p := {| cfg := cfg m; m_book := m_book m; t := t m; agents := agents m; next_order_id := next_order_id m; last_trade_price := p; trades_log := trades_log m; rng_draws := rng_draws m; rng_pos := rng_pos m; m_compute := m_compute m; latq := latq m; trades_this_tick := trades_this_tick m; volume_this_tick := volume_this_tick m; messages_this_tick := messages_this_tick m |}.
Definition set_trades_log l := {| cfg := cfg m; m_book := m_book m; t := t m; agents := agents m; next_order_id := next_order_id m; last_trade_price := last_trade_price m; trades_log := l; rng_draws := rng_draws m; rng_pos := rng_pos m; m_compute := m_compute m; latq := latq m; trades_this_tick := trades_this_tick m; volume_this_tick := volume_this_tick m; messages_this_tick := messages_this_tick m |}.
Definition set_rng_pos n := {| cfg := cfg m; m_book := m_book m; t := t m; agents := agents m; next_order_id := next_order_id m; last_trade_price := last_trade_price m; trades_log := trades_log m; rng_draws := rng_draws m; rng_pos := n; m_compute := m_compute m; latq := latq m; trades_this_tick := trades_this_tick m; volume_this_tick := volume_this_tick m; messages_this_tick := messages_this_tick m |}.
Definition set_compute c := {| cfg := cfg m; m_book := m_book m; t := t m; agents := agents m; next_order_id := next_order_id m; last_trade_price := last_trade_price m; trades_log := trades_log m; rng_draws := rng_draws m; rng_pos := rng_pos m; m_compute := c; latq := latq m; trades_this_tick := trades_this_tick m; volume_this_tick := volume_this_tick m; messages_this_tick := messages_this_tick m |}.
Definition set_latq q := {| cfg := cfg m; m_book := m_book m; t := t m; agents := agents m; next_order_id := next_order_id m; last_trade_price := last_trade_price m; trades_log := trades_log m; rng_draws := rng_draws m; rng_pos := rng_pos m; m_compute := m_compute m; latq := q; trades_this_tick := trades_this_tick m; volume_this_tick := volume_this_tick m; messages_this_tick := messages_this_tick m |}.
Definition set_counters tr vol msg := {| cfg := cfg m; m_book := m_book m; t := t m; agents := agents m; next_order_id := next_order_id m; last_trade_price := last_trade_price m; trades_log := trades_log m; rng_draws := rng_draws m; rng_pos := rng_pos m; m_compute := m_compute m; latq := latq m; trades_this_tick := tr; volume_this_tick := vol; messages_this_tick := msg |}.
Definition set_t n := {| cfg := cfg m; m_book := m_book m; t := n; agents := agents m; next_order_id := next_order_id m; last_trade_price := last_trade_price m; trades_log := trades_log m; rng_draws := rng_draws m; rng_pos := rng_pos m; m_compute := m_compute m; latq := latq m; trades_this_tick := trades_this_tick m; volume_this_tick := volume_this_tick m; messages_this_tick := messages_this_tick m |}.
End Setters.

(** [Market(config, agent_ids, rng)], no log attached *)
Definition new_market (c : MarketConfig) (agent_ids : list string) (draws : nat -> Q) : Market :=
  {| cfg := c; m_book := new_book (tick_size c); t := 0;
     agents := fold_left (fun d a => dict_set String.eqb d a AgentState0) agent_ids [];
     next_order_id := 1; last_trade_price := None; trades_log := None;
     rng_draws := draws; rng_pos := 0; m_compute := []; latq := new_latq;
     trades_this_tick := 0; volume_this_tick := 0; messages_this_tick := 0 |}.

(** [attach_logs] for the trade log *)
Definition attach_trades_log (m : Market) : Market := set_trades_log m (Some []).

(** [set_agent_compute] *)
Definition set_agent_compute (m : Market) (a : string) (b : ComputeBudget) (l : LatencyModel) : Market :=
  set_compute m (dict_set String.eqb (m_compute m) a
                   {| tokens := capacity_tokens b; budget := b; latency := l |}).

(** running a book operation on [self.book] *)
Definition on_book {A} (c : SE OrderBook A) : SE Market A :=
  fun m => let '(r, b) := c (m_book m) in (r, set_book m b).

(** [_new_order_id] *)
Definition new_order_id : SE Market Z :=
  m <- get ;;
  modify (fun m => set_next_order_id m (next_order_id m + 1)) ;;;
  ret (next_order_id m).

(** [_charge_message_fee] *)
Definition charge_message_fee (agent_id : string) : SE Market unit :=
  modify (fun m => set_counters m (trades_this_tick m) (volume_this_tick m) (messages_this_tick m + 1)) ;;;
  m <- get ;;
  match dict_get String.eqb (agents m) agent_id with
  | None => raise KeyError
  | Some st =>
      modify (fun m => set_agents m (dict_set String.eqb (agents m) agent_id
        {| cash := (cash st - fee_per_message (cfg m))%Q; inventory := inventory st;
           last_value_price := last_value_price st |}))
  end.

(** [self.agents[k].<field> op= ...]: the key is present (inserted just
    before in [_apply_trades]). *)
Definition agent_upd (ag : list (string * AgentState)) (k : string) (f : AgentState -> AgentState) :=
  match dict_get String.eqb ag k with
  | Some st => dict_set String.eqb ag k (f st)
  | None => ag
  end.

Definition add_inventory (d : Z) (st : AgentState) : AgentState :=
  {| cash := cash st; inventory := inventory st + d; last_value_price := last_value_price st |}.
Definition add_cash (d : Q) (st : AgentState) : AgentState :=
  {| cash := (cash st + d)%Q; inventory := inventory st; last_value_price := last_value_price st |}.
Definition sub_cash (d : Q) (st : AgentState) : AgentState :=
  {| cash := (cash st - d)%Q; inventory := inventory st; last_value_price := last_value_price st |}.

(** The JSON record of one trade written to [trades.jsonl]. *)
Definition trade_record (m : Market) (tr : Trade) (taker_agent : string) (side : Side)
    : list (string * PyVal) :=
  [("t", PInt (t m)); ("price", PFloat (tr_price tr)); ("qty", PInt (tr_qty tr));
   ("buy_agent", PStr (buy_agent_id tr)); ("sell_agent", PStr (sell_agent_id tr));
   ("taker_agent", PStr taker_agent); ("taker_side", PStr (side_value side))].

(** One pass of the [for tr in trades] loop of [_apply_trades]. *)
Definition apply_trade (initiator : string) (side : Side) (m : Market) (tr : Trade) : Market :=
  let m := set_last_trade_price m (Some (tr_price tr)) in
  let qty := tr_qty tr in
  let m := set_counters m (trades_this_tick m + 1) (volume_this_tick m + qty) (messages_this_tick m) in
  let b := buy_agent_id tr in
  let s := sell_agent_id tr in
  let ag := agents m in
  let ag := match dict_get String.eqb ag b with Some _ => ag | None => dict_set String.eqb ag b AgentState0 end in
  let ag := match dict_get String.eqb ag s with Some _ => ag | None => dict_set String.eqb ag s AgentState0 end in
  let ag := agent_upd ag b (add_inventory qty) in
  let ag := agent_upd ag b (sub_cash (tr_price tr * inject_Z qty)) in
  let ag := agent_upd ag s (add_inventory (- qty)) in
  let ag := agent_upd ag s (add_cash (tr_price tr * inject_Z qty)) in
  let taker_agent := initiator in
  let ag := if String.eqb b taker_agent then agent_upd ag b (sub_cash (fee_per_share (cfg m) * inject_Z qty))
            else if String.eqb s taker_agent then agent_upd ag s (sub_cash (fee_per_share (cfg m) * inject_Z qty))
            else ag in
  let m := set_agents m ag in
  match trades_log m with
  | Some l => set_trades_log m (Some (l ++ [trade_record m tr taker_agent side]))
  | None => m
  end.

(** [_apply_trades(initiator, side, trades, taker)]; [taker] is unused. *)
Definition apply_trades (initiator : string) (side : Side) (trades : list Trade) (taker : bool) : SE Market unit :=
  modify (fun m => fold_left (apply_trade initiator side) trades m).

(** [submit_limit] (the agent log line is not modelled) *)
Definition submit_limit (agent_id : string) (side : Side) (price : Q) (qty : Z) : SE Market (list Trade) :=
  charge_message_fee agent_id ;;;
  oid <- new_order_id ;;
  m <- get ;;
  let order := {| o_id := oid; o_agent_id := agent_id; o_side := side; o_price := Some price;
                  o_qty := qty; o_ts := t m; o_is_market := false |} in
  trades <- on_book (place_limit order) ;;
  apply_trades agent_id side trades false ;;;
  ret trades.

(** [submit_market] *)
Definition submit_market (agent_id : string) (side : Side) (qty : Z) : SE Market (list Trade) :=
  charge_message_fee agent_id ;;;
  oid <- new_order_id ;;
  m <- get ;;
  let order := {| o_id := oid; o_agent_id := agent_id; o_side := side; o_price := None;
                  o_qty := qty; o_ts := t m; o_is_market := true |} in
  trades <- on_book (place_market order) ;;
  apply_trades agent_id side trades true ;;;
  ret trades.

(** [Market.cancel] *)
Definition market_cancel (agent_id : string) (order_id : Z) : SE Market bool :=
  charge_message_fee agent_id ;;;
  on_book (cancel order_id).

(** [self._latq.next_seq()] *)
Definition latq_next_seq : SE Market Z :=
  m <- get ;;
  let '(n, q) := next_seq (latq m) in
  modify (fun m => set_latq m q) ;;;
  ret n.

(** [self._latq.push(item)] *)
Definition latq_push (item : ScheduledIntent) : SE Market unit :=
  modify (fun m => set_latq m (push (latq m) item)).

(** [self._rng.random()] *)
Definition rng_random : SE Market Q :=
  m <- get ;;
  modify (fun m => set_rng_pos m (S (rng_pos m))) ;;;
  ret (rng_draws m (rng_pos m)).

(** [latency_ms = base + used * per_token], with the optional jitter. *)
Definition latency_of (lm : LatencyModel) (used : Z) : SE Market Q :=
  let latency_ms := (base_ms lm + inject_Z used * ms_per_token lm)%Q in
  if Qltb 0 (jitter_ms lm) then
    r <- rng_random ;;
    let jitter := ((r * 2 - 1) * jitter_ms lm)%Q in
    ret (Qmax 0 (latency_ms + jitter))
  else ret latency_ms.

(** [ticks = max(1, math.ceil(latency_ms / max(1e-6, tick_duration_ms)))] *)
Definition ticks_of (c : MarketConfig) (latency_ms : Q) : Z :=
  Z.max 1 (Qceiling (latency_ms / Qmax (1 # 1000000) (tick_duration_ms c))).

(** The body shared by [schedule_limit] and [schedule_market]: [mk arrival_t
    seq used latency_ms] is the intent the method builds (the agent log lines
    are not modelled). *)
Definition schedule (agent_id : string) (tokens_requested : Z)
    (mk : Z -> Z -> Z -> Q -> ScheduledIntent) : SE Market unit :=
  m <- get ;;
  match dict_get String.eqb (m_compute m) agent_id with
  | None =>
      (* default: no budget, no latency *)
      let arrival_t := t m in
      seq <- latq_next_seq ;;
      latq_push (mk arrival_t seq 0 0%Q)
  | Some st =>
      let '((used, degraded), st') := consume st tokens_requested in
      modify (fun m => set_compute m (dict_set String.eqb (m_compute m) agent_id st')) ;;;
      latency_ms <- latency_of (latency st) used ;;
      m <- get ;;
      let ticks := ticks_of (cfg m) latency_ms in
      let arrival_t := t m + ticks in
      seq <- latq_next_seq ;;
      if degraded then ret tt   (* drop action *)
      else latq_push (mk arrival_t seq used latency_ms)
  end.

(** [schedule_limit] *)
Definition schedule_limit (agent_id : string) (side : Side) (price : Q) (qty : Z)
    (tokens_requested : Z) : SE Market unit :=
  schedule agent_id tokens_requested (fun arrival_t seq used latency_ms =>
    {| arrival_t := arrival_t; seq := seq; intent_type := "limit"; si_agent_id := agent_id;
       si_side := side; si_price := Some price; si_qty := qty; tokens_used := used;
       si_latency_ms := latency_ms |}).

(** [schedule_market] *)
Definition schedule_market (agent_id : string) (side : Side) (qty : Z)
    (tokens_requested : Z) : SE Market unit :=
  schedule agent_id tokens_requested (fun arrival_t seq used latency_ms =>
    {| arrival_t := arrival_t; seq := seq; intent_type := "market"; si_agent_id := agent_id;
       si_side := side; si_price := None; si_qty := qty; tokens_used := used;
       si_latency_ms := latency_ms |}).

(** [begin_tick] *)
Definition begin_tick (m : Market) : Market :=
  set_compute m (map (fun kv => (fst kv, refill (snd kv))) (m_compute m)).

(** The [for ev in arrivals] loop of [step]. *)
Fixpoint apply_arrivals (arrivals : list ScheduledIntent) : SE Market unit :=
  match arrivals with
  | [] => ret tt
  | ev :: rest =>
      (if String.eqb (intent_type ev) "limit" then
         match si_price ev with
         | Some p => submit_limit (si_agent_id ev) (si_side ev) p (si_qty ev) ;;; ret tt
         | None => raise TypeError        (* float(None) *)
         end
       else if String.eqb (intent_type ev) "market" then
         submit_market (si_agent_id ev) (si_side ev) (si_qty ev) ;;; ret tt
       else ret tt) ;;;
      apply_arrivals rest
  end.

(** [step] up to the best bid and ask of its payload (the other payload
    fields are read-only summaries of the book and counters). *)
Definition step : SE Market (option Q * option Q) :=
  modify (fun m => set_t m (t m + 1)) ;;;
  modify (fun m => set_counters m 0 0 0) ;;;
  m <- get ;;
  let '(arrivals, q) := pop_ready (t m) (latq m) in
  modify (fun m => set_latq m q) ;;;
  apply_arrivals arrivals ;;;
  on_book top_of_book.

(* ------------------------------------------------------------------ *)
(** ** Concrete inputs *)

Definition mk_order (i : Z) (a : string) (s : Side) (p : option Q) (q ts : Z) (m : bool) : Order :=
  {| o_id := i; o_agent_id := a; o_side := s; o_price := p; o_qty := q; o_ts := ts;
     o_is_market := m |}.

(** The scenario of [test_price_time_priority_basic]. *)
Definition fifo_scenario : SE OrderBook (list Trade) :=
  place_limit (mk_order 1 "s1" SELL (Some 100%Q) 5 1 false) ;;;
  place_limit (mk_order 2 "s2" SELL (Some 100%Q) 5 2 false) ;;;
  place_market (mk_order 3 "b" BUY None 7 3 true).

(* ------------------------------------------------------------------ *)
(** ** Scenarios and auxiliary definitions used by the properties *)

(** A sequence of [refill()] and [consume(requested)] calls. *)
Inductive TokenOp : Type :=
| Refill
| Consume (requested : Z).

Fixpoint run_token_ops (ops : list TokenOp) (st : AgentComputeState) : AgentComputeState :=
  match ops with
  | [] => st
  | Refill :: ops' => run_token_ops ops' (refill st)
  | Consume r :: ops' => run_token_ops ops' (snd (consume st r))
  end.

Definition token_op_ok (op : TokenOp) : Prop :=
  match op with Refill => True | Consume r => 0 <= r end.

(** A compute state with a negative refill amount. *)
Definition negative_refill_state : AgentComputeState :=
  {| tokens := 0; budget := {| capacity_tokens := 1; refill_tokens := -1 |};
     latency := {| base_ms := 1 # 2; ms_per_token := 1 # 10; jitter_ms := 0 |} |}.

(** The market of the spec's scenario: participant "a" with capacity 1 and
    refill 1, no log attached, all draws 0. *)
Definition market_a : Market :=
  set_agent_compute
    (new_market {| tick_size := 1 # 100; fee_per_message := 0; fee_per_share := 0;
                   tick_duration_ms := 1 |} ["a"; "b"] (fun _ => 0%Q))
    "a" {| capacity_tokens := 1; refill_tokens := 1 |}
    {| base_ms := 1 # 2; ms_per_token := 1 # 10; jitter_ms := 0 |}.

(** The ledger entry of [k], [AgentState()] when [k] is not registered
    (as [_apply_trades] creates it). *)
Definition ledger_of (m : Market) (k : string) : AgentState :=
  match dict_get String.eqb (agents m) k with Some st => st | None => AgentState0 end.

Definition trade_b_s : Trade :=
  {| buy_order_id := -1; sell_order_id := 1; buy_agent_id := "b"; sell_agent_id := "a";
     tr_price := 100%Q; tr_qty := 2; tr_ts := 1 |}.

Definition intent_at (a s : Z) (ag : string) : ScheduledIntent :=
  {| arrival_t := a; seq := s; intent_type := "limit"; si_agent_id := ag; si_side := BUY;
     si_price := Some 100%Q; si_qty := 1; tokens_used := 0; si_latency_ms := 0 |}.

(** The queue invariant kept by [next_seq] followed by [push]: sequence
    numbers are distinct and at most the counter. *)
Definition seq_inv (q : LatencyQueue) : Prop :=
  NoDup (map seq (pq q)) /\ Forall (fun x => seq x <= lq_seq q) (pq q).

(** The tick delay as the spec words it:
    [ticks = max(1, ceil(latency_ms / tick_duration_ms))]. *)
Definition spec_ticks (latency_ms tick_duration_ms : Q) : Z :=
  Z.max 1 (Qceiling (latency_ms / tick_duration_ms)).

(** A market whose tick lasts 1e-7 ms, below the 1e-6 floor of [step]'s
    divisor; participant "a" has a profile with base latency 1 ms, "b" none. *)
Definition market_fast_ticks : Market :=
  set_agent_compute
    (new_market {| tick_size := 1 # 100; fee_per_message := 0; fee_per_share := 0;
                   tick_duration_ms := 1 # 10000000 |} ["a"; "b"] (fun _ => 0%Q))
    "a" {| capacity_tokens := 1; refill_tokens := 1 |}
    {| base_ms := 1; ms_per_token := 0; jitter_ms := 0 |}.

(** A sequence of book operations; an operation that raises leaves the
    book as it was at the raise, and the next operation runs on it (the
    caller catches the exception). *)
Inductive BookOp : Type :=
| OpLimit (o : Order)
| OpMarket (o : Order)
| OpCancel (order_id : Z).

Definition run_book_op (op : BookOp) (b : OrderBook) : OrderBook :=
  match op with
  | OpLimit o => snd (place_limit o b)
  | OpMarket o => snd (place_market o b)
  | OpCancel i => snd (cancel i b)
  end.

Fixpoint run_book_ops (ops : list BookOp) (b : OrderBook) : OrderBook :=
  match ops with
  | [] => b
  | op :: ops' => run_book_ops ops' (run_book_op op b)
  end.

(** every level is stored under its own price *)
Definition keys_match (d : list (Q * PriceLevel)) : Prop :=
  forall k l, In (k, l) d -> (lvl_price l == k)%Q.

(** every bid level is priced below every ask level *)
Definition uncrossed (bd ad : list (Q * PriceLevel)) : Prop :=
  forall kb lb ka la, In (kb, lb) bd -> In (ka, la) ad -> (lvl_price lb < lvl_price la)%Q.

Definition book_inv (b : OrderBook) : Prop :=
  keys_match (bids b) /\ keys_match (asks b) /\ uncrossed (bids b) (asks b).

(** [d'] keeps a subset of the levels of [d], under the same keys and
    prices (queues may differ). *)
Definition shrinks (d d' : list (Q * PriceLevel)) : Prop :=
  (List.length d' <= List.length d)%nat /\
  forall k l', In (k, l') d' -> exists l, In (k, l) d /\ lvl_price l = lvl_price l'.

Definition book_shrinks (b b' : OrderBook) : Prop :=
  shrinks (bids b) (bids b') /\ shrinks (asks b) (asks b').

(** [x] is at least as good for the taker as [y] on side [opp]: the
    lowest ask, the highest bid. *)
Definition beyond (opp : Side) (x y : Q) : Prop :=
  match opp with SELL => (x <= y)%Q | BUY => (y <= x)%Q end.

(** the entries of a side after an update: old levels, or new levels
    stored under their own price and beyond the whole other side *)
Definition grown (d d' : list (Q * PriceLevel)) (ok : PriceLevel -> Prop) : Prop :=
  forall k l', In (k, l') d' ->
  (exists l, In (k, l) d /\ lvl_price l = lvl_price l') \/
  ((lvl_price l' == k)%Q /\ ok l').

Definition c3_ops : list BookOp :=
  [OpLimit (mk_order 1 "b1" BUY (Some 99%Q) 5 1 false);
   OpLimit (mk_order 2 "s1" SELL (Some 100%Q) 5 2 false);
   OpLimit (mk_order 3 "b2" BUY (Some 101%Q) 3 3 false);
   OpCancel 1].

(* ------------------------------------------------------------------ *)
(** ** Further functions: [snapshot_depth], [mark_to_market], the agents'
    price alignment and [MarketMakerSimple.step], and auxiliary definitions *)

(** Python's [sorted] is stable; [insert_by before x l] puts [x] in front
    of the first element [y] with [before x y], after every element it
    does not precede, so inserting the items one by one in their original
    order gives the stable sort. *)
Fixpoint insert_by {A} (before : A -> A -> bool) (x : A) (l : list A) : list A :=
  match l with
  | [] => [x]
  | y :: l' => if before x y then x :: y :: l' else y :: insert_by before x l'
  end.

Definition stable_sort {A} (before : A -> A -> bool) (l : list A) : list A :=
  fold_left (fun acc x => insert_by before x acc) l [].

(** [sorted(book.items(), key=lambda kv: kv[0], reverse=True)] *)
Definition sort_levels_desc (d : list (Q * PriceLevel)) : list (Q * PriceLevel) :=
  stable_sort (fun x y => Qltb (fst y) (fst x)) d.

(** [sorted(book.items(), key=lambda kv: kv[0])] *)
Definition sort_levels_asc (d : list (Q * PriceLevel)) : list (Q * PriceLevel) :=
  stable_sort (fun x y => Qltb (fst x) (fst y)) d.

(** Python's slice [l[:k]] *)
Definition py_take {A} (l : list A) (k : Z) : list A :=
  if 0 <=? k then firstn (Z.to_nat k) l
  else firstn (Z.to_nat (Z.of_nat (List.length l) + k)) l.

(** [snapshot_depth(top_k)]: the ["bids"] and ["asks"] lists. *)
Definition snapshot_depth (b : OrderBook) (top_k : Z) : list (Q * Z) * list (Q * Z) :=
  (map (fun kv => (fst kv, sum_qty (lvl_queue (snd kv)))) (py_take (sort_levels_desc (bids b)) top_k),
   map (fun kv => (fst kv, sum_qty (lvl_queue (snd kv)))) (py_take (sort_levels_asc (asks b)) top_k)).

(** a price [price] on side [s] is strictly better for the opposite side
    than the opposite level price [lp]: it does not reach it *)
Definition no_cross (s : Side) (price lp : Q) : Prop :=
  match s with BUY => (price < lp)%Q | SELL => (lp < price)%Q end.

Definition idx_nodup (b : OrderBook) : Prop := NoDup (map fst (id_index b)).

Definition total_inventory (ag : list (string * AgentState)) : Z :=
  fold_right (fun kv acc => inventory (snd kv) + acc) 0 ag.

Definition total_cash (ag : list (string * AgentState)) : Q :=
  fold_right (fun kv acc => cash (snd kv) + acc)%Q 0%Q ag.

(** the taker fees [_apply_trades] charges for [trades] *)
Definition taker_fees (c : MarketConfig) (initiator : string) (trades : list Trade) : Q :=
  fold_right (fun tr acc =>
    ((if String.eqb (buy_agent_id tr) initiator || String.eqb (sell_agent_id tr) initiator
      then fee_per_share c * inject_Z (tr_qty tr) else 0) + acc)%Q) 0%Q trades.

Definition sum_tr_qty (trades : list Trade) : Z :=
  fold_right (fun tr acc => tr_qty tr + acc) 0 trades.

Definition present (ag : list (string * AgentState)) (k : string) : Prop :=
  exists st, dict_get String.eqb ag k = Some st.

(** [round(x / tick) * tick], the alignment expression of the agents *)
Definition align_to_tick (tick_size x : Q) : Q :=
  (inject_Z (py_round (x / tick_size)) * tick_size)%Q.

(** the mid of [MarketMakerSimple.step] *)
Definition mm_mid (bb ba : option Q) : Q :=
  match bb, ba with
  | Some x, Some y => ((x + y) / 2)%Q
  | _, _ => 100%Q
  end.

(** the limit orders [MarketMakerSimple.step] submits, in order *)
Definition mm_quotes (inv : Z) (bb ba : option Q) (tick_size base_spread : Q) (inv_limit : Z)
    : list (Side * Q) :=
  let mid := mm_mid bb ba in
  if inv_limit <=? inv then [(SELL, align_to_tick tick_size (mid + base_spread))]
  else if inv <=? - inv_limit then [(BUY, align_to_tick tick_size (mid - base_spread))]
  else [(BUY, align_to_tick tick_size (mid - base_spread));
        (SELL, align_to_tick tick_size (mid + base_spread))].

Fixpoint submit_quotes (agent_id : string) (qs : list (Side * Q)) (size : Z) : SE Market unit :=
  match qs with
  | [] => ret tt
  | (s, p) :: qs' => submit_limit agent_id s p size ;;; submit_quotes agent_id qs' size
  end.

(** [MarketMakerSimple.step] *)
Definition mm_step (agent_id : string) (base_spread : Q) (size inv_limit : Z) : SE Market unit :=
  m <- get ;;
  match dict_get String.eqb (agents m) agent_id with
  | None => raise KeyError
  | Some state =>
      ' (bb, ba) <- on_book top_of_book ;;
      m <- get ;;
      submit_quotes agent_id (mm_quotes (inventory state) bb ba (tick_size (cfg m)) base_spread inv_limit) size
  end.

(** [mark_to_market(agent_id, price)] *)
Definition mark_to_market (agent_id : string) (price : option Q) : SE Market Q :=
  px <- (match price with
         | Some p => ret p
         | None =>
             ' (bb, ba) <- on_book top_of_book ;;
             match bb, ba with
             | Some x, Some y => ret ((x + y) / 2)%Q
             | _, _ =>
                 m <- get ;;
                 match last_trade_price m with
                 | Some p => ret p
                 | None => ret 0%Q
                 end
             end
         end) ;;
  m <- get ;;
  match dict_get String.eqb (agents m) agent_id with
  | None => raise KeyError
  | Some st =>
      modify (fun m => set_agents m (dict_set String.eqb (agents m) agent_id
        {| cash := cash st; inventory := inventory st; last_value_price := Some px |})) ;;;
      ret (cash st + inject_Z (inventory st) * px)%Q
  end.

(** the number of draws [schedule] takes from the Market's RNG *)
Definition schedule_draws (m : Market) (agent_id : string) : nat :=
  match dict_get String.eqb (m_compute m) agent_id with
  | Some st => if Qltb 0 (jitter_ms (latency st)) then 1%nat else 0%nat
  | None => 0%nat
  end.

(** A book with bids at 98 and 99 and asks at 100 and 101. *)
Definition demo_ops : list BookOp :=
  [OpLimit (mk_order 1 "b1" BUY (Some 98%Q) 3 1 false);
   OpLimit (mk_order 2 "b2" BUY (Some 99%Q) 5 2 false);
   OpLimit (mk_order 3 "s1" SELL (Some 101%Q) 4 3 false);
   OpLimit (mk_order 4 "s2" SELL (Some 100%Q) 2 4 false)].

Definition demo_book : OrderBook := run_book_ops demo_ops (new_book (1 # 100)).

Definition demo_order : Order := mk_order 5 "b3" BUY (Some 99%Q) 2 5 false.

(** The latency queue and the clock are at given values. *)
Definition queue_clock (q0 : LatencyQueue) (t0 : Z) (m : Market) : Prop := latq m = q0 /\ t m = t0.

(** The order-id counter and the message count are at given values. *)
Definition ids_messages (n k : Z) (m : Market) : Prop := next_order_id m = n /\ messages_this_tick m = k.

(** One step of the fold computing the first best entry of a side book. *)
Definition pick (better : Q -> Q -> bool) (m y : Q * PriceLevel) : Q * PriceLevel :=
  if better (fst y) (fst m) then y else m.

(* ------------------------------------------------------------------ *)
(** ** General lemmas *)

Lemma sget_sset_same {V} (d : list (string * V)) k v :
  dict_get String.eqb (dict_set String.eqb d k v) k = Some v.
Proof.
  induction d as [|[k0 v0] d IH]; simpl.
  - now rewrite String.eqb_refl.
  - destruct (String.eqb_spec k0 k) as [->|Hne]; simpl.
    + now rewrite String.eqb_refl.
    + apply String.eqb_neq in Hne. now rewrite Hne.
Qed.

Lemma sget_sset_other {V} (d : list (string * V)) k k' v :
  k <> k' ->
  dict_get String.eqb (dict_set String.eqb d k v) k' = dict_get String.eqb d k'.
Proof.
  intros Hne. induction d as [|[k0 v0] d IH]; simpl.
  - apply String.eqb_neq in Hne. now rewrite Hne.
  - destruct (String.eqb_spec k0 k) as [->|Hne0]; simpl.
    + apply String.eqb_neq in Hne. now rewrite Hne.
    + now rewrite IH.
Qed.

Lemma agent_upd_same ag k f :
  dict_get String.eqb (agent_upd ag k f) k = option_map f (dict_get String.eqb ag k).
Proof.
  unfold agent_upd. destruct (dict_get String.eqb ag k) eqn:E; simpl.
  - apply sget_sset_same.
  - exact E.
Qed.

Lemma agent_upd_other ag k k' f :
  k <> k' -> dict_get String.eqb (agent_upd ag k f) k' = dict_get String.eqb ag k'.
Proof.
  intros Hne. unfold agent_upd. destruct (dict_get String.eqb ag k); auto.
  now apply sget_sset_other.
Qed.

(* ------------------------------------------------------------------ *)
(** ** Claims *)

(** C1 (code_bug).  [_execute_against] passes [buyer_limit] and
    [seller_limit] to [Trade], whose dataclass declares neither field: as
    soon as a resting order would be matched, the [Trade(...)] call raises
    [TypeError] (before any mutation), so no trade with the counterparties'
    limits is ever produced; and the per-trade record written by
    [_apply_trades] carries no [buyer_limit] / [seller_limit] keys. *)
Theorem execute_against_raises_type_error :
  forall b s k lvl resting rest qty take_side ts taker_agent taker_limit,
    dict_get Qeq_bool (side_book b s) k = Some lvl ->
    lvl_queue lvl = resting :: rest ->
    0 < qty ->
    execute_against s k qty take_side ts taker_agent taker_limit b = (Err TypeError, b) /\
    (forall m tr side,
       dict_get String.eqb (trade_record m tr taker_agent side) "buyer_limit" = None /\
       dict_get String.eqb (trade_record m tr taker_agent side) "seller_limit" = None).
Proof.
  intros b s k lvl resting rest qty take_side ts taker_agent taker_limit Hget Hq Hpos.
  split.
  - unfold execute_against, bind, get_level. rewrite Hget.
    cbn [execute_loop]. unfold bind, get_level. rewrite Hget, Hq.
    replace (0 <? qty) with true by (symmetry; apply Z.ltb_lt; exact Hpos).
    destruct take_side; reflexivity.
  - intros m tr side. split; reflexivity.
Qed.

Lemma execute_against_raises_type_error_witness :
  exists b, execute_against SELL 100%Q 7 BUY 3 "b" None b = (Err TypeError, b).
Proof.
  exists (snd (place_limit (mk_order 1 "s1" SELL (Some 100%Q) 5 1 false) (new_book (1 # 100)))).
  refine (proj1 (execute_against_raises_type_error _ SELL 100%Q
            {| lvl_price := 100%Q; lvl_queue := [mk_order 1 "s1" SELL (Some 100%Q) 5 1 false] |}
            (mk_order 1 "s1" SELL (Some 100%Q) 5 1 false) [] 7 BUY 3 "b" None _ _ _)).
  - vm_compute. reflexivity.
  - reflexivity.
  - lia.
Defined.

(** C2 (code_bug).  The scenario of the spec and of
    [test_price_time_priority_basic]: the market buy of 7 raises [TypeError]
    at its first match instead of returning the two trades, and the ask
    level at 100.00 keeps its full depth 10. *)
Theorem fifo_scenario_raises_type_error :
  fst (fifo_scenario (new_book (1 # 100))) = Err TypeError /\
  depth_at_level (snd (fifo_scenario (new_book (1 # 100)))) 100%Q SELL = 10.
Proof. vm_compute. split; reflexivity. Qed.

(** C5.  A limit order whose price is not aligned with the tick size makes
    [place_limit] raise [ValueError] before any mutation: no trade, and the
    book (both sides and the id index) is left exactly as it was. *)
Theorem place_limit_misaligned_rejected :
  forall b o p,
    o_is_market o = false ->
    o_price o = Some p ->
    conform_price (tick b) p = false ->
    place_limit o b = (Err ValueError, b).
Proof.
  intros b o p Hm Hp Hc.
  unfold place_limit. rewrite Hm, Hp.
  unfold bind, get. simpl. rewrite Hc. reflexivity.
Qed.

Lemma place_limit_misaligned_rejected_witness :
  conform_price (5 # 100) (10003 # 100) = false /\
  place_limit (mk_order 1 "a" BUY (Some (10003 # 100)) 1 1 false) (new_book (5 # 100))
  = (Err ValueError, new_book (5 # 100)).
Proof.
  split.
  - vm_compute. reflexivity.
  - apply (place_limit_misaligned_rejected (new_book (5 # 100))
             (mk_order 1 "a" BUY (Some (10003 # 100)) 1 1 false) (10003 # 100)).
    + reflexivity.
    + reflexivity.
    + vm_compute. reflexivity.
Defined.

(** C6 (counterexample).  [refill] does not floor at zero: with
    [refill_tokens = -1] a state with tokens 0 in [[0, 1]] goes to -1. *)
Lemma token_bucket_negative_refill :
  0 <= tokens negative_refill_state <= capacity_tokens (budget negative_refill_state) /\
  tokens (run_token_ops [Refill] negative_refill_state) = -1.
Proof. split; [simpl; lia | reflexivity]. Qed.

(** C6 (amended).  With a non-negative refill amount, tokens stay in
    [[0, capacity_tokens]] along every sequence of [refill] and
    [consume(requested >= 0)] calls; [consume] is all-or-nothing: a request
    above the available tokens returns [(0, True)] and deducts nothing, any
    other returns [(requested, False)] and deducts exactly [requested]. *)
Theorem token_bucket_bounded :
  forall st ops,
    0 <= tokens st <= capacity_tokens (budget st) ->
    0 <= refill_tokens (budget st) ->
    Forall token_op_ok ops ->
    0 <= tokens (run_token_ops ops st) <= capacity_tokens (budget (run_token_ops ops st)) /\
    budget (run_token_ops ops st) = budget st /\
    (forall st' r, tokens st' < r -> consume st' r = ((0, true), st')) /\
    (forall st' r, r <= tokens st' ->
       consume st' r = ((r, false), set_tokens st' (tokens st' - r))).
Proof.
  intros st ops Hb Hr Hops.
  split; [|split; [|split]].
  - revert st Hb Hr. induction Hops as [|op ops Hop Hops IH]; intros st Hb Hr; simpl; auto.
    destruct op as [|r]; simpl in *.
    + apply IH; unfold refill; simpl; lia.
    + unfold consume. destruct (Z.leb_spec r (tokens st)); simpl; apply IH; simpl; lia.
  - clear Hb Hr Hops. revert st. induction ops as [|op ops IH]; intros st; simpl; auto.
    destruct op as [|r].
    + rewrite IH. reflexivity.
    + rewrite IH. unfold consume. destruct (r <=? tokens st); reflexivity.
  - intros st' r H. unfold consume.
    replace (r <=? tokens st') with false by (symmetry; apply Z.leb_gt; lia). reflexivity.
  - intros st' r H. unfold consume.
    replace (r <=? tokens st') with true by (symmetry; apply Z.leb_le; lia). reflexivity.
Qed.

Lemma token_bucket_bounded_witness :
  0 <= tokens (run_token_ops [Consume 2; Refill; Consume 1; Consume 3; Refill]
                 {| tokens := 1; budget := {| capacity_tokens := 1; refill_tokens := 1 |};
                    latency := {| base_ms := 1 # 2; ms_per_token := 1 # 10; jitter_ms := 0 |} |})
  <= 1.
Proof.
  pose proof (token_bucket_bounded
    {| tokens := 1; budget := {| capacity_tokens := 1; refill_tokens := 1 |};
       latency := {| base_ms := 1 # 2; ms_per_token := 1 # 10; jitter_ms := 0 |} |}
    [Consume 2; Refill; Consume 1; Consume 3; Refill]) as H.
  destruct H as [H _].
  - simpl; lia.
  - simpl; lia.
  - repeat constructor; simpl; lia.
  - exact H.
Defined.

Lemma sset_get_id {V} (d : list (string * V)) k v :
  dict_get String.eqb d k = Some v -> dict_set String.eqb d k v = d.
Proof.
  induction d as [|[k0 v0] d IH]; simpl; intros H; [discriminate|].
  destruct (String.eqb k0 k); [congruence|]. now rewrite IH.
Qed.

(** A degraded request leaves the queue's heap, the compute states and
    the book as they were (only the sequence counter and, with jitter, the
    random stream advance). *)
Lemma schedule_degraded m a st req mk :
  dict_get String.eqb (m_compute m) a = Some st ->
  tokens st < req ->
  fst (schedule a req mk m) = Ok tt /\
  pq (latq (snd (schedule a req mk m))) = pq (latq m) /\
  m_compute (snd (schedule a req mk m)) = m_compute m /\
  m_book (snd (schedule a req mk m)) = m_book m.
Proof.
  intros Hst Hlt.
  assert (Hc : consume st req = ((0, true), st)).
  { unfold consume. replace (req <=? tokens st) with false by (symmetry; apply Z.leb_gt; lia).
    reflexivity. }
  unfold schedule, bind, get. rewrite Hst, Hc. unfold modify at 1. cbn -[latency_of ticks_of].
  rewrite (sset_get_id _ _ _ Hst).
  unfold latency_of. destruct (Qltb 0 (jitter_ms (latency st))); cbn; auto.
Qed.

(** C7.  For a participant with a compute profile, a [schedule_limit] or
    [schedule_market] whose token request exceeds the available tokens
    enqueues nothing, leaves the tokens (all compute states) and the book
    unchanged, and returns normally: the action is dropped. *)
Theorem schedule_degraded_dropped :
  forall m a st req,
    dict_get String.eqb (m_compute m) a = Some st ->
    tokens st < req ->
    (forall side p q,
       fst (schedule_limit a side p q req m) = Ok tt /\
       pq (latq (snd (schedule_limit a side p q req m))) = pq (latq m) /\
       m_compute (snd (schedule_limit a side p q req m)) = m_compute m /\
       m_book (snd (schedule_limit a side p q req m)) = m_book m) /\
    (forall side q,
       fst (schedule_market a side q req m) = Ok tt /\
       pq (latq (snd (schedule_market a side q req m))) = pq (latq m) /\
       m_compute (snd (schedule_market a side q req m)) = m_compute m /\
       m_book (snd (schedule_market a side q req m)) = m_book m).
Proof.
  intros m a st req Hst Hlt. split.
  - intros side p q. unfold schedule_limit. now apply schedule_degraded with (st := st).
  - intros side q. unfold schedule_market. now apply schedule_degraded with (st := st).
Qed.

Lemma schedule_degraded_dropped_witness :
  pq (latq (snd (schedule_limit "a" BUY 100%Q 1 2 market_a))) = pq (latq market_a).
Proof.
  destruct (schedule_degraded_dropped market_a "a"
              {| tokens := 1; budget := {| capacity_tokens := 1; refill_tokens := 1 |};
                 latency := {| base_ms := 1 # 2; ms_per_token := 1 # 10; jitter_ms := 0 |} |}
              2) as [H _].
  - reflexivity.
  - simpl; lia.
  - apply (H BUY 100%Q 1).
Defined.

(** C10.  [submit_limit], [submit_market] and [cancel] with an agent id
    absent from the ledger raise [KeyError] inside [_charge_message_fee],
    after counting the message and before an order id is drawn or the book
    is touched: the only change to the Market is the message counter. *)
Theorem unregistered_agent_fee_charge_fails :
  forall m a,
    dict_get String.eqb (agents m) a = None ->
    (forall side p q, submit_limit a side p q m =
       (Err KeyError, set_counters m (trades_this_tick m) (volume_this_tick m) (messages_this_tick m + 1))) /\
    (forall side q, submit_market a side q m =
       (Err KeyError, set_counters m (trades_this_tick m) (volume_this_tick m) (messages_this_tick m + 1))) /\
    (forall oid, market_cancel a oid m =
       (Err KeyError, set_counters m (trades_this_tick m) (volume_this_tick m) (messages_this_tick m + 1))).
Proof.
  intros m a Hnone.
  split; [|split]; intros;
    unfold submit_limit, submit_market, market_cancel, charge_message_fee, bind, modify, get;
    cbn; rewrite Hnone; reflexivity.
Qed.

Lemma unregistered_agent_fee_charge_fails_witness :
  fst (submit_market "z" BUY 1 market_a) = Err KeyError /\
  m_book (snd (submit_market "z" BUY 1 market_a)) = m_book market_a.
Proof.
  destruct (unregistered_agent_fee_charge_fails market_a "z") as [_ [H _]].
  - reflexivity.
  - rewrite (H BUY 1). split; reflexivity.
Defined.

Lemma apply_trade_cfg i sd m tr : cfg (apply_trade i sd m tr) = cfg m.
Proof. unfold apply_trade. cbn. destruct (trades_log m); reflexivity. Qed.

Lemma apply_trades_cfg i sd trs m : cfg (fold_left (apply_trade i sd) trs m) = cfg m.
Proof.
  revert m. induction trs as [|tr trs IH]; intros m; simpl; auto.
  now rewrite IH, apply_trade_cfg.
Qed.

Lemma ensure_agents_get (ag : list (string * AgentState)) b s :
  b <> s ->
  let ag1 := match dict_get String.eqb ag b with Some _ => ag | None => dict_set String.eqb ag b AgentState0 end in
  let ag2 := match dict_get String.eqb ag1 s with Some _ => ag1 | None => dict_set String.eqb ag1 s AgentState0 end in
  dict_get String.eqb ag2 b = Some (match dict_get String.eqb ag b with Some st => st | None => AgentState0 end) /\
  dict_get String.eqb ag2 s = Some (match dict_get String.eqb ag s with Some st => st | None => AgentState0 end).
Proof.
  intros Hne ag1 ag2. subst ag1 ag2.
  assert (Hne' : s <> b) by congruence.
  destruct (dict_get String.eqb ag b) eqn:Eb; destruct (dict_get String.eqb ag s) eqn:Es;
    cbn iota beta;
    repeat first [ rewrite Eb | rewrite Es | rewrite sget_sset_same
                 | rewrite sget_sset_other by auto ];
    auto.
Qed.

Lemma apply_trade_ledger i sd m tr :
  buy_agent_id tr <> sell_agent_id tr ->
  (fee_per_share (cfg m) == 0)%Q ->
  let m' := apply_trade i sd m tr in
  inventory (ledger_of m' (buy_agent_id tr)) = inventory (ledger_of m (buy_agent_id tr)) + tr_qty tr /\
  inventory (ledger_of m' (sell_agent_id tr)) = inventory (ledger_of m (sell_agent_id tr)) - tr_qty tr /\
  (cash (ledger_of m' (buy_agent_id tr)) ==
     cash (ledger_of m (buy_agent_id tr)) - tr_price tr * inject_Z (tr_qty tr))%Q /\
  (cash (ledger_of m' (sell_agent_id tr)) ==
     cash (ledger_of m (sell_agent_id tr)) + tr_price tr * inject_Z (tr_qty tr))%Q.
Proof.
  intros Hne Hfee m'.
  assert (Hne' : sell_agent_id tr <> buy_agent_id tr) by congruence.
  assert (Hag : agents m' =
    let ag := agents m in
    let b := buy_agent_id tr in let s := sell_agent_id tr in
    let qty := tr_qty tr in
    let ag := match dict_get String.eqb ag b with Some _ => ag | None => dict_set String.eqb ag b AgentState0 end in
    let ag := match dict_get String.eqb ag s with Some _ => ag | None => dict_set String.eqb ag s AgentState0 end in
    let ag := agent_upd ag b (add_inventory qty) in
    let ag := agent_upd ag b (sub_cash (tr_price tr * inject_Z qty)) in
    let ag := agent_upd ag s (add_inventory (- qty)) in
    let ag := agent_upd ag s (add_cash (tr_price tr * inject_Z qty)) in
    if String.eqb b i then agent_upd ag b (sub_cash (fee_per_share (cfg m) * inject_Z qty))
    else if String.eqb s i then agent_upd ag s (sub_cash (fee_per_share (cfg m) * inject_Z qty))
    else ag).
  { subst m'. unfold apply_trade. cbn. destruct (trades_log m); reflexivity. }
  unfold ledger_of. rewrite Hag. cbv zeta.
  destruct (ensure_agents_get (agents m) _ _ Hne) as [Gb Gs].
  set (ag1 := match dict_get String.eqb _ (sell_agent_id tr) with Some _ => _ | None => _ end) in *.
  set (A := agent_upd (agent_upd (agent_upd (agent_upd ag1 (buy_agent_id tr) _) (buy_agent_id tr) _)
                        (sell_agent_id tr) _) (sell_agent_id tr) _).
  assert (Ab : dict_get String.eqb A (buy_agent_id tr) =
     Some (sub_cash (tr_price tr * inject_Z (tr_qty tr))
             (add_inventory (tr_qty tr)
                (match dict_get String.eqb (agents m) (buy_agent_id tr) with Some st => st | None => AgentState0 end)))).
  { subst A. rewrite !agent_upd_other by auto. rewrite !agent_upd_same. now rewrite Gb. }
  assert (As : dict_get String.eqb A (sell_agent_id tr) =
     Some (add_cash (tr_price tr * inject_Z (tr_qty tr))
             (add_inventory (- tr_qty tr)
                (match dict_get String.eqb (agents m) (sell_agent_id tr) with Some st => st | None => AgentState0 end)))).
  { subst A. rewrite !agent_upd_same. rewrite !agent_upd_other by auto. now rewrite Gs. }
  clearbody A.
  destruct (String.eqb (buy_agent_id tr) i); [|destruct (String.eqb (sell_agent_id tr) i)].
  - rewrite agent_upd_same, agent_upd_other by auto. rewrite Ab, As. cbn.
    repeat split; try lia; rewrite Hfee; ring.
  - rewrite agent_upd_same, agent_upd_other by auto. rewrite Ab, As. cbn.
    repeat split; try lia; rewrite ?Hfee; ring.
  - rewrite Ab, As. cbn. repeat split; try lia; ring.
Qed.

(** C4.  For every trade applied by [_apply_trades] (here the last one of
    [trs1 ++ [tr]], after the trades [trs1] before it) whose buyer and
    seller differ, with a zero per-share fee: the buyer's inventory grows
    by the quantity and its cash drops by [price * qty]; the seller's
    inventory drops by the quantity and its cash grows by [price * qty]. *)
Theorem apply_trades_ledger_transfer :
  forall m initiator side taker trs1 tr,
    buy_agent_id tr <> sell_agent_id tr ->
    (fee_per_share (cfg m) == 0)%Q ->
    let m1 := snd (apply_trades initiator side trs1 taker m) in
    let m2 := snd (apply_trades initiator side (trs1 ++ [tr]) taker m) in
    inventory (ledger_of m2 (buy_agent_id tr)) = inventory (ledger_of m1 (buy_agent_id tr)) + tr_qty tr /\
    inventory (ledger_of m2 (sell_agent_id tr)) = inventory (ledger_of m1 (sell_agent_id tr)) - tr_qty tr /\
    (cash (ledger_of m2 (buy_agent_id tr)) ==
       cash (ledger_of m1 (buy_agent_id tr)) - tr_price tr * inject_Z (tr_qty tr))%Q /\
    (cash (ledger_of m2 (sell_agent_id tr)) ==
       cash (ledger_of m1 (sell_agent_id tr)) + tr_price tr * inject_Z (tr_qty tr))%Q.
Proof.
  intros m initiator side taker trs1 tr Hne Hfee m1 m2.
  subst m1 m2. unfold apply_trades, modify. cbn [snd].
  rewrite fold_left_app. cbn [fold_left].
  apply apply_trade_ledger; auto.
  now rewrite apply_trades_cfg.
Qed.

Lemma apply_trades_ledger_transfer_witness :
  inventory (ledger_of (snd (apply_trades "b" BUY [trade_b_s] true market_a)) "b") =
  inventory (ledger_of (snd (apply_trades "b" BUY [] true market_a)) "b") + 2.
Proof.
  destruct (apply_trades_ledger_transfer market_a "b" BUY true [] trade_b_s) as [H _].
  - discriminate.
  - reflexivity.
  - exact H.
Defined.

(* ------------------------------------------------------------------ *)
(** ** The latency queue *)

Lemma si_lt_spec a b :
  si_lt a b = true <->
  arrival_t a < arrival_t b \/ (arrival_t a = arrival_t b /\ seq a < seq b).
Proof.
  unfold si_lt. rewrite Bool.orb_true_iff, Bool.andb_true_iff, Z.ltb_lt, Z.eqb_eq, Z.ltb_lt.
  tauto.
Qed.

Lemma si_lt_false a b :
  si_lt a b = false <->
  arrival_t b < arrival_t a \/ (arrival_t a = arrival_t b /\ seq b <= seq a).
Proof.
  destruct (si_lt a b) eqn:E.
  - apply si_lt_spec in E. split; [discriminate|lia].
  - split; [|auto]. intros _.
    destruct (Z.lt_total (arrival_t a) (arrival_t b)) as [H|[H|H]].
    + assert (si_lt a b = true) by (apply si_lt_spec; auto). congruence.
    + destruct (Z.lt_ge_cases (seq a) (seq b)).
      * assert (si_lt a b = true) by (apply si_lt_spec; auto). congruence.
      * lia.
    + lia.
Qed.

Lemma select_min_perm l x :
  Permutation (x :: l) (fst (select_min x l) :: snd (select_min x l)).
Proof.
  revert x. induction l as [|y l IH]; intros x; simpl; auto.
  destruct (si_lt y x).
  - specialize (IH y). destruct (select_min y l) as [m r]. simpl in *.
    transitivity (x :: m :: r); [auto|apply perm_swap].
  - specialize (IH x). destruct (select_min x l) as [m r]. simpl in *.
    transitivity (y :: x :: l); [apply perm_swap|].
    transitivity (y :: m :: r); [auto|apply perm_swap].
Qed.

Lemma select_min_least l x y :
  In y (x :: l) -> si_lt y (fst (select_min x l)) = false.
Proof.
  revert x y. induction l as [|z l IH]; intros x y Hin; simpl.
  - destruct Hin as [<-|[]]. apply si_lt_false. lia.
  - destruct (si_lt z x) eqn:Ezx.
    + specialize (IH z). destruct (select_min z l) as [m r] eqn:E. simpl in *.
      destruct Hin as [<-|Hin].
      * assert (Hzm : si_lt z m = false) by (apply IH; left; auto).
        apply si_lt_spec in Ezx. apply si_lt_false in Hzm. apply si_lt_false. lia.
      * apply IH. destruct Hin; auto.
    + specialize (IH x). destruct (select_min x l) as [m r] eqn:E. simpl in *.
      destruct Hin as [<-|[<-|Hin]].
      * apply IH. left; auto.
      * assert (Hxm : si_lt x m = false) by (apply IH; left; auto).
        apply si_lt_false in Ezx. apply si_lt_false in Hxm. apply si_lt_false. lia.
      * apply IH. right; auto.
Qed.

Lemma Permutation_filter_map {A} (f : A -> bool) l l' :
  Permutation l l' -> Permutation (filter f l) (filter f l').
Proof.
  induction 1; simpl; auto.
  - destruct (f x); auto.
  - destruct (f x), (f y); auto using perm_swap.
  - eauto using Permutation_trans.
Qed.

Lemma filter_all {A} (f : A -> bool) l : Forall (fun x => f x = true) l -> filter f l = l.
Proof. induction 1; simpl; auto. rewrite H. congruence. Qed.

Lemma filter_none {A} (f : A -> bool) l : Forall (fun x => f x = false) l -> filter f l = [].
Proof. induction 1; simpl; auto. rewrite H. auto. Qed.

(** The loop of [pop_ready]: what it appends is the items of the heap
    with [arrival_t <= t], what it leaves the others. *)
Lemma pop_ready_loop_split fuel t h out :
  (List.length h <= fuel)%nat ->
  exists new,
    fst (pop_ready_loop fuel t h out) = out ++ new /\
    Permutation (new ++ snd (pop_ready_loop fuel t h out)) h /\
    Forall (fun x => arrival_t x <= t) new /\
    Forall (fun x => t < arrival_t x) (snd (pop_ready_loop fuel t h out)).
Proof.
  revert h out. induction fuel as [|fuel IH]; intros h out Hlen.
  - destruct h; [|simpl in Hlen; lia]. exists []. simpl. rewrite app_nil_r. auto.
  - destruct h as [|x l].
    + exists []. simpl. rewrite app_nil_r. auto.
    + cbn [pop_ready_loop].
      pose proof (select_min_perm l x) as Hp.
      pose proof (select_min_least l x) as Hl.
      destruct (select_min x l) as [m r]. simpl in Hp, Hl.
      destruct (Z.leb_spec (arrival_t m) t) as [Hle|Hgt].
      * assert (Hr : (List.length r <= fuel)%nat).
        { apply Permutation_length in Hp. simpl in Hp, Hlen. lia. }
        destruct (IH r (out ++ [m]) Hr) as (new & E1 & E2 & E3 & E4).
        exists (m :: new). rewrite E1, <- app_assoc. split; auto.
        split; [|split; auto].
        simpl. rewrite Hp. apply perm_skip. exact E2.
      * exists []. simpl. rewrite app_nil_r. split; auto. split; auto. split; auto.
        apply Forall_forall. intros y Hy. specialize (Hl y Hy).
        apply si_lt_false in Hl. lia.
Qed.

Lemma StronglySorted_snoc {A} (R : A -> A -> Prop) l m :
  StronglySorted R l -> (forall x, In x l -> R x m) -> StronglySorted R (l ++ [m]).
Proof.
  induction 1 as [|a l Hs IH Hf]; intros Hm; simpl.
  - repeat constructor.
  - constructor.
    + apply IH. intros x Hx. apply Hm. right; auto.
    + apply Forall_app. split; auto. constructor; [apply Hm; left; auto|constructor].
Qed.

Lemma StronglySorted_middle {A} (R : A -> A -> Prop) l1 a l :
  StronglySorted R (l1 ++ a :: l) -> Forall (R a) l.
Proof.
  induction l1 as [|x l1 IH]; simpl; intros H.
  - now inversion H.
  - inversion H; auto.
Qed.

(** With pairwise distinct sequence numbers, the loop emits its items in
    strictly increasing [(arrival_t, seq)] order. *)
Lemma pop_ready_loop_sorted fuel t h out :
  NoDup (map seq h) ->
  StronglySorted (fun a b => si_lt a b = true) out ->
  (forall x y, In x out -> In y h -> si_lt x y = true) ->
  StronglySorted (fun a b => si_lt a b = true) (fst (pop_ready_loop fuel t h out)).
Proof.
  revert h out. induction fuel as [|fuel IH]; intros h out Hnd Hs Hlt; simpl; auto.
  destruct h as [|x l]; simpl; auto.
  pose proof (select_min_perm l x) as Hp.
  pose proof (select_min_least l x) as Hl.
  destruct (select_min x l) as [m r]. simpl in Hp, Hl.
  destruct (arrival_t m <=? t); simpl; auto.
  assert (Hnd' : NoDup (map seq (m :: r))).
  { eapply Permutation_NoDup; [apply Permutation_map; exact Hp|exact Hnd]. }
  apply IH.
  - now inversion Hnd'.
  - apply StronglySorted_snoc; auto. intros z Hz. apply Hlt; auto.
    apply (Permutation_in _ (Permutation_sym Hp)). left; auto.
  - intros z y Hz Hy. apply in_app_or in Hz. destruct Hz as [Hz|[<-|[]]].
    + apply Hlt; auto. apply (Permutation_in _ (Permutation_sym Hp)). right; auto.
    + assert (Hym : si_lt y m = false).
      { apply Hl. apply (Permutation_in _ (Permutation_sym Hp)). right; auto. }
      assert (Hne : seq m <> seq y).
      { intros Heq. inversion Hnd' as [|? ? Hnin _]. apply Hnin.
        rewrite Heq. apply in_map. auto. }
      apply si_lt_false in Hym. apply si_lt_spec. lia.
Qed.

(** C8.  [pop_ready(t)] returns exactly the queued intents with
    [arrival_t <= t] and leaves exactly the others; the returned list is
    strictly increasing in [(arrival_t, seq)], so two intents with the same
    arrival tick come out in increasing sequence (submission) order; on an
    empty queue it returns [[]] and changes nothing.  The sequence numbers
    are distinct, as [next_seq] hands them out (see [seq_inv] below). *)
Theorem pop_ready_ready_in_order :
  forall t q,
    NoDup (map seq (pq q)) ->
    Permutation (fst (pop_ready t q)) (filter (fun x => arrival_t x <=? t) (pq q)) /\
    Permutation (pq (snd (pop_ready t q))) (filter (fun x => t <? arrival_t x) (pq q)) /\
    StronglySorted (fun a b => si_lt a b = true) (fst (pop_ready t q)) /\
    (forall l1 a l2 b l3, fst (pop_ready t q) = l1 ++ a :: l2 ++ b :: l3 ->
       arrival_t a = arrival_t b -> seq a < seq b) /\
    (pq q = [] -> pop_ready t q = ([], q)).
Proof.
  intros t q Hnd.
  destruct (pop_ready_loop_split (List.length (pq q)) t (pq q) [] (le_n _))
    as (new & E1 & E2 & E3 & E4).
  pose proof (pop_ready_loop_sorted (List.length (pq q)) t (pq q) [] Hnd
                (SSorted_nil _) (fun x y (Hx : In x []) _ => match Hx with end)) as Hs.
  unfold pop_ready.
  destruct (pop_ready_loop (List.length (pq q)) t (pq q) []) as [out h]. simpl in *. subst out.
  assert (Hle : Forall (fun x => (arrival_t x <=? t) = true) new).
  { eapply Forall_impl; [|exact E3]. intros x Hx. now apply Z.leb_le. }
  assert (Hgt : Forall (fun x => (arrival_t x <=? t) = false) h).
  { eapply Forall_impl; [|exact E4]. intros x Hx. now apply Z.leb_gt. }
  assert (Hle' : Forall (fun x => (t <? arrival_t x) = false) new).
  { eapply Forall_impl; [|exact E3]. intros x Hx. now apply Z.ltb_ge. }
  assert (Hgt' : Forall (fun x => (t <? arrival_t x) = true) h).
  { eapply Forall_impl; [|exact E4]. intros x Hx. now apply Z.ltb_lt. }
  split; [|split; [|split; [|split]]].
  - apply Permutation_sym in E2.
    apply (Permutation_filter_map (fun x => arrival_t x <=? t)) in E2.
    rewrite filter_app, (filter_all _ new Hle), (filter_none _ h Hgt), app_nil_r in E2.
    now apply Permutation_sym.
  - apply Permutation_sym in E2.
    apply (Permutation_filter_map (fun x => t <? arrival_t x)) in E2.
    rewrite filter_app, (filter_all _ h Hgt'), (filter_none _ new Hle') in E2.
    now apply Permutation_sym.
  - exact Hs.
  - intros l1 a l2 b l3 Heq Harr. rewrite Heq in Hs.
    apply StronglySorted_middle in Hs.
    rewrite Forall_forall in Hs.
    assert (Hab : si_lt a b = true) by (apply Hs, in_or_app; right; left; auto).
    apply si_lt_spec in Hab. lia.
  - intros Hnil. destruct q as [h0 n]. simpl in *. subst h0.
    simpl in E2. apply Permutation_sym, Permutation_nil in E2. apply app_eq_nil in E2.
    destruct E2 as [-> ->]. reflexivity.
Qed.

Lemma pop_ready_ready_in_order_witness :
  fst (pop_ready 2 {| pq := [intent_at 2 3 "c"; intent_at 5 4 "d"; intent_at 2 1 "a"; intent_at 1 2 "b"];
                      lq_seq := 4 |}) = [intent_at 1 2 "b"; intent_at 2 1 "a"; intent_at 2 3 "c"] /\
  StronglySorted (fun a b => si_lt a b = true)
    (fst (pop_ready 2 {| pq := [intent_at 2 3 "c"; intent_at 5 4 "d"; intent_at 2 1 "a"; intent_at 1 2 "b"];
                         lq_seq := 4 |})).
Proof.
  split.
  - reflexivity.
  - apply (pop_ready_ready_in_order 2
             {| pq := [intent_at 2 3 "c"; intent_at 5 4 "d"; intent_at 2 1 "a"; intent_at 1 2 "b"];
                lq_seq := 4 |}).
    simpl. repeat constructor; simpl; intuition lia.
Defined.

Lemma next_seq_push_seq_inv q item :
  seq_inv q -> seq item = fst (next_seq q) -> seq_inv (push (snd (next_seq q)) item).
Proof.
  intros [Hnd Hle] Hs. unfold seq_inv, push, next_seq in *. cbn [pq lq_seq fst snd] in *.
  rewrite Forall_forall in Hle. split.
  - rewrite map_app. apply NoDup_app; auto.
    + repeat constructor. auto.
    + intros x Hx [Hx'|[]].
      apply in_map_iff in Hx. destruct Hx as (y & Hy & Hin).
      specialize (Hle y Hin). lia.
  - apply Forall_forall. intros x Hx. apply in_app_or in Hx.
    destruct Hx as [Hx|[<-|[]]]; [specialize (Hle x Hx)|]; lia.
Qed.

Lemma pop_ready_seq_inv t q : seq_inv q -> seq_inv (snd (pop_ready t q)).
Proof.
  intros [Hnd Hle].
  destruct (pop_ready_loop_split (List.length (pq q)) t (pq q) [] (le_n _))
    as (new & _ & E2 & _ & _).
  unfold pop_ready. destruct (pop_ready_loop (List.length (pq q)) t (pq q) []) as [out h].
  simpl in *. split.
  - apply Permutation_sym, (Permutation_map seq) in E2.
    rewrite map_app in E2. apply (Permutation_NoDup E2) in Hnd.
    now apply NoDup_app_remove_l in Hnd.
  - rewrite Forall_forall in *. intros x Hx. apply Hle.
    apply (Permutation_in _ E2). apply in_or_app. right; auto.
Qed.

Lemma pop_ready_contains t q x :
  In x (pq q) -> arrival_t x <= t -> In x (fst (pop_ready t q)).
Proof.
  intros Hin Hle.
  destruct (pop_ready_loop_split (List.length (pq q)) t (pq q) [] (le_n _))
    as (new & E1 & E2 & E3 & E4).
  unfold pop_ready. destruct (pop_ready_loop (List.length (pq q)) t (pq q) []) as [out h].
  simpl in *. subst out.
  apply (Permutation_in _ (Permutation_sym E2)) in Hin. apply in_app_or in Hin.
  destruct Hin as [Hin|Hin]; auto.
  rewrite Forall_forall in E4. specialize (E4 x Hin). lia.
Qed.

(* ------------------------------------------------------------------ *)
(** ** Arrival ticks of scheduled intents *)

Lemma schedule_granted m a st req mk :
  dict_get String.eqb (m_compute m) a = Some st ->
  (jitter_ms (latency st) <= 0)%Q ->
  req <= tokens st ->
  let L := (base_ms (latency st) + inject_Z req * ms_per_token (latency st))%Q in
  fst (schedule a req mk m) = Ok tt /\
  pq (latq (snd (schedule a req mk m))) =
    pq (latq m) ++ [mk (t m + ticks_of (cfg m) L) (lq_seq (latq m) + 1) req L] /\
  m_book (snd (schedule a req mk m)) = m_book m.
Proof.
  intros Hst Hj Hreq L.
  assert (Hc : consume st req = ((req, false), set_tokens st (tokens st - req))).
  { unfold consume. replace (req <=? tokens st) with true by (symmetry; apply Z.leb_le; lia).
    reflexivity. }
  assert (Hq : Qltb 0 (jitter_ms (latency st)) = false).
  { unfold Qltb. apply Qle_bool_iff in Hj. now rewrite Hj. }
  unfold schedule, bind, get. rewrite Hst, Hc. unfold latency_of. rewrite Hq.
  cbn. auto.
Qed.

Lemma schedule_no_profile m a req mk :
  dict_get String.eqb (m_compute m) a = None ->
  fst (schedule a req mk m) = Ok tt /\
  pq (latq (snd (schedule a req mk m))) = pq (latq m) ++ [mk (t m) (lq_seq (latq m) + 1) 0 0%Q] /\
  m_book (snd (schedule a req mk m)) = m_book m.
Proof.
  intros Hst. unfold schedule, bind, get. rewrite Hst. cbn. auto.
Qed.

(** C9 (counterexample).  With [tick_duration_ms = 1e-7] and a latency of
    1 ms the intent arrives 10^6 ticks later (the divisor is floored at
    1e-6), not [max(1, ceil(1 / 1e-7)) = 10^7]; and a participant with no
    profile gets an intent queued for the current tick, the book being left
    untouched by the call (nothing rests at 100.00). *)
Lemma schedule_arrival_counterexample :
  map arrival_t (pq (latq (snd (schedule_limit "a" BUY 100%Q 1 0 market_fast_ticks)))) = [1000000] /\
  t market_fast_ticks + spec_ticks 1 (tick_duration_ms (cfg market_fast_ticks)) = 10000000 /\
  map arrival_t (pq (latq (snd (schedule_limit "b" BUY 100%Q 1 0 market_fast_ticks)))) = [0] /\
  depth_at_level (m_book (snd (schedule_limit "b" BUY 100%Q 1 0 market_fast_ticks))) 100%Q BUY = 0.
Proof. vm_compute. repeat split; reflexivity. Qed.

(** C9 (amended).  For a participant with a compute profile, no jitter
    ([jitter_ms <= 0]) and a granted request: the enqueued intent has
    [latency_ms = base_ms + consumed * ms_per_token] and arrival tick
    [t + max(1, ceil(latency_ms / max(1e-6, tick_duration_ms)))].  For a
    participant without a profile the intent is enqueued with arrival tick
    [t] (no tokens, latency 0), the call leaves the book untouched, and the
    next [step] (which pops at [t + 1]) delivers it. *)
Theorem schedule_arrival_tick :
  forall m a side p q req,
    (forall st,
       dict_get String.eqb (m_compute m) a = Some st ->
       (jitter_ms (latency st) <= 0)%Q ->
       req <= tokens st ->
       let L := (base_ms (latency st) + inject_Z req * ms_per_token (latency st))%Q in
       let ticks := Z.max 1 (Qceiling (L / Qmax (1 # 1000000) (tick_duration_ms (cfg m)))) in
       pq (latq (snd (schedule_limit a side p q req m))) = pq (latq m) ++
         [{| arrival_t := t m + ticks; seq := lq_seq (latq m) + 1; intent_type := "limit";
             si_agent_id := a; si_side := side; si_price := Some p; si_qty := q;
             tokens_used := req; si_latency_ms := L |}] /\
       pq (latq (snd (schedule_market a side q req m))) = pq (latq m) ++
         [{| arrival_t := t m + ticks; seq := lq_seq (latq m) + 1; intent_type := "market";
             si_agent_id := a; si_side := side; si_price := None; si_qty := q;
             tokens_used := req; si_latency_ms := L |}]) /\
    (dict_get String.eqb (m_compute m) a = None ->
       let il := {| arrival_t := t m; seq := lq_seq (latq m) + 1; intent_type := "limit";
                    si_agent_id := a; si_side := side; si_price := Some p; si_qty := q;
                    tokens_used := 0; si_latency_ms := 0 |} in
       let im := {| arrival_t := t m; seq := lq_seq (latq m) + 1; intent_type := "market";
                    si_agent_id := a; si_side := side; si_price := None; si_qty := q;
                    tokens_used := 0; si_latency_ms := 0 |} in
       pq (latq (snd (schedule_limit a side p q req m))) = pq (latq m) ++ [il] /\
       m_book (snd (schedule_limit a side p q req m)) = m_book m /\
       In il (fst (pop_ready (t m + 1) (latq (snd (schedule_limit a side p q req m))))) /\
       pq (latq (snd (schedule_market a side q req m))) = pq (latq m) ++ [im] /\
       m_book (snd (schedule_market a side q req m)) = m_book m /\
       In im (fst (pop_ready (t m + 1) (latq (snd (schedule_market a side q req m)))))).
Proof.
  intros m a side p q req. split.
  - intros st Hst Hj Hreq L ticks.
    unfold schedule_limit, schedule_market.
    split; (edestruct (schedule_granted m a st req) as (_ & E & _); [exact Hst|exact Hj|exact Hreq|];
            rewrite E; reflexivity).
  - intros Hnone il im.
    unfold schedule_limit, schedule_market.
    destruct (schedule_no_profile m a req (fun arrival_t seq used latency_ms =>
       {| arrival_t := arrival_t; seq := seq; intent_type := "limit"; si_agent_id := a;
          si_side := side; si_price := Some p; si_qty := q; tokens_used := used;
          si_latency_ms := latency_ms |}) Hnone) as (_ & Hl & Bl).
    destruct (schedule_no_profile m a req (fun arrival_t seq used latency_ms =>
       {| arrival_t := arrival_t; seq := seq; intent_type := "market"; si_agent_id := a;
          si_side := side; si_price := None; si_qty := q; tokens_used := used;
          si_latency_ms := latency_ms |}) Hnone) as (_ & Hm & Bm).
    repeat split; auto.
    + apply pop_ready_contains; [rewrite Hl; apply in_or_app; right; left; auto|].
      cbn. lia.
    + apply pop_ready_contains; [rewrite Hm; apply in_or_app; right; left; auto|].
      cbn. lia.
Qed.

Lemma schedule_arrival_tick_witness :
  map arrival_t (pq (latq (snd (schedule_limit "a" BUY 100%Q 1 1 market_a)))) = [1].
Proof.
  destruct (schedule_arrival_tick market_a "a" BUY 100%Q 1 1) as [H _].
  destruct (H {| tokens := 1; budget := {| capacity_tokens := 1; refill_tokens := 1 |};
                 latency := {| base_ms := 1 # 2; ms_per_token := 1 # 10; jitter_ms := 0 |} |})
    as [Hl _].
  - reflexivity.
  - vm_compute. discriminate.
  - simpl; lia.
  - rewrite Hl. vm_compute. reflexivity.
Defined.

(* ------------------------------------------------------------------ *)
(** ** The uncrossed-book invariant *)

Lemma shrinks_refl d : shrinks d d.
Proof. split; [lia|]. intros k l H. eauto. Qed.

Lemma shrinks_trans d1 d2 d3 : shrinks d1 d2 -> shrinks d2 d3 -> shrinks d1 d3.
Proof.
  intros [L12 H12] [L23 H23]. split; [lia|].
  intros k l H. destruct (H23 _ _ H) as (l2 & H2 & E2).
  destruct (H12 _ _ H2) as (l1 & H1 & E1). exists l1. split; congruence.
Qed.

Lemma book_shrinks_refl b : book_shrinks b b.
Proof. split; apply shrinks_refl. Qed.

Lemma book_shrinks_trans b1 b2 b3 : book_shrinks b1 b2 -> book_shrinks b2 b3 -> book_shrinks b1 b3.
Proof. intros [? ?] [? ?]; split; eapply shrinks_trans; eauto. Qed.

Lemma keys_match_shrinks d d' : keys_match d -> shrinks d d' -> keys_match d'.
Proof.
  intros Hk [_ Hs] k l H. destruct (Hs _ _ H) as (l0 & H0 & E). rewrite <- E. eauto.
Qed.

Lemma book_inv_shrinks b b' : book_inv b -> book_shrinks b b' -> book_inv b'.
Proof.
  intros (Hb & Ha & Hu) [Sb Sa]. split; [|split].
  - exact (keys_match_shrinks _ _ Hb Sb).
  - exact (keys_match_shrinks _ _ Ha Sa).
  - intros kb lb ka la Hib Hia.
    destruct (proj2 Sb _ _ Hib) as (lb0 & Hb0 & Eb).
    destruct (proj2 Sa _ _ Hia) as (la0 & Ha0 & Ea).
    rewrite <- Eb, <- Ea. eauto.
Qed.

Lemma dict_get_In {K V} (keq : K -> K -> bool) d k (v : V) :
  dict_get keq d k = Some v -> exists k', In (k', v) d /\ keq k' k = true.
Proof.
  induction d as [|[k0 v0] d IH]; simpl; [discriminate|].
  destruct (keq k0 k) eqn:E.
  - intros H. inversion H; subst. eauto.
  - intros H. destruct (IH H) as (k' & ? & ?). eauto.
Qed.

Lemma dict_get_set_same {K V} (keq : K -> K -> bool) d k (v : V) :
  keq k k = true -> dict_get keq (dict_set keq d k v) k = Some v.
Proof.
  intros Hr. induction d as [|[k0 v0] d IH]; simpl.
  - now rewrite Hr.
  - destruct (keq k0 k) eqn:E; simpl; rewrite E; auto.
Qed.

Lemma In_dict_set {K V} (keq : K -> K -> bool) d k0 (v : V) k l :
  In (k, l) (dict_set keq d k0 v) ->
  In (k, l) d \/
  (l = v /\ ((exists v0, dict_get keq d k0 = Some v0 /\ In (k, v0) d) \/
             (dict_get keq d k0 = None /\ k = k0))).
Proof.
  induction d as [|[k1 v1] d IH]; simpl; intros H.
  - destruct H as [H|[]]. inversion H; subst. right. auto.
  - destruct (keq k1 k0) eqn:E.
    + destruct H as [H|H].
      * inversion H; subst. right. split; auto. left. exists v1. auto.
      * left; right; auto.
    + destruct H as [H|H]; [left; left; auto|].
      destruct (IH H) as [H'|(Hl & [(v0 & Hg & Hi)|(Hg & Hk)])]; auto.
      right. split; auto. left. exists v0. auto.
Qed.

Lemma In_dict_remove {K V} (keq : K -> K -> bool) d k0 k (l : V) :
  In (k, l) (dict_remove keq d k0) -> In (k, l) d.
Proof.
  induction d as [|[k1 v1] d IH]; simpl; auto.
  destruct (keq k1 k0); simpl; intuition.
Qed.

Lemma dict_remove_length {K V} (keq : K -> K -> bool) d k (v : V) :
  dict_get keq d k = Some v -> S (List.length (dict_remove keq d k)) = List.length d.
Proof.
  induction d as [|[k1 v1] d IH]; simpl; [discriminate|].
  destruct (keq k1 k); simpl; auto.
Qed.

Lemma dict_set_length {K V} (keq : K -> K -> bool) d k (v v' : V) :
  dict_get keq d k = Some v -> List.length (dict_set keq d k v') = List.length d.
Proof.
  induction d as [|[k1 v1] d IH]; simpl; [discriminate|].
  destruct (keq k1 k); simpl; auto.
Qed.

Lemma dict_remove_length_le {K V} (keq : K -> K -> bool) d k :
  (List.length (dict_remove (V := V) keq d k) <= List.length d)%nat.
Proof.
  induction d as [|[k1 v1] d IH]; simpl; [lia|].
  destruct (keq k1 k); simpl; lia.
Qed.

Lemma shrinks_set_level d k l q :
  dict_get Qeq_bool d k = Some l -> shrinks d (dict_set Qeq_bool d k (set_queue l q)).
Proof.
  intros Hg. split; [erewrite dict_set_length by exact Hg; lia|]. intros k' l' H. apply In_dict_set in H.
  destruct H as [H|(-> & [(v0 & Hv & Hi)|(Hv & _)])]; [eauto| |congruence].
  rewrite Hg in Hv. inversion Hv; subst. exists v0. auto.
Qed.

Lemma shrinks_remove d k : shrinks d (dict_remove Qeq_bool d k).
Proof.
  split; [apply dict_remove_length_le|].
  intros k' l' H. apply In_dict_remove in H. eauto.
Qed.

Lemma side_book_set_same b s d : side_book (set_side_book b s d) s = d.
Proof. destruct s; reflexivity. Qed.

Lemma side_book_set_idx b i s : side_book (set_id_index b i) s = side_book b s.
Proof. destruct s; reflexivity. Qed.

Lemma book_shrinks_side b s d :
  shrinks (side_book b s) d -> book_shrinks b (set_side_book b s d).
Proof. destruct s; intros H; split; simpl; auto using shrinks_refl. Qed.

Lemma book_shrinks_idx b i : book_shrinks b (set_id_index b i).
Proof. split; apply shrinks_refl. Qed.

Lemma bind_shrinks {A B} (m : SE OrderBook A) (k : A -> SE OrderBook B) b :
  book_shrinks b (snd (m b)) ->
  (forall a b', m b = (Ok a, b') -> book_shrinks b' (snd (k a b'))) ->
  book_shrinks b (snd (bind m k b)).
Proof.
  intros H1 H2. unfold bind. destruct (m b) as [[a|e] b'] eqn:E; simpl in *; auto.
  eapply book_shrinks_trans; eauto.
Qed.

Lemma Trade_init_state {S} kw (s : S) : snd (Trade_init kw s) = s.
Proof.
  unfold Trade_init.
  repeat match goal with |- context [match ?x with _ => _ end] => destruct x end;
    reflexivity.
Qed.

Lemma get_level_inv s k b l b' :
  get_level s k b = (Ok l, b') -> b' = b /\ dict_get Qeq_bool (side_book b s) k = Some l.
Proof.
  unfold get_level. destruct (dict_get _ _ _); intros H; inversion H; subst; auto.
Qed.

Lemma get_level_shrinks s k b : book_shrinks b (snd (get_level s k b)).
Proof. unfold get_level. destruct (dict_get _ _ _); apply book_shrinks_refl. Qed.

Lemma put_level_shrinks s k l q b :
  dict_get Qeq_bool (side_book b s) k = Some l ->
  book_shrinks b (snd (put_level s k (set_queue l q) b)).
Proof. intros H. apply book_shrinks_side, shrinks_set_level, H. Qed.

Lemma del_level_shrinks s k b : book_shrinks b (snd (del_level s k b)).
Proof.
  unfold del_level. destruct (dict_get _ _ _); simpl.
  - apply book_shrinks_side, shrinks_remove.
  - apply book_shrinks_refl.
Qed.

Lemma ret_shrinks {A} (a : A) b : book_shrinks b (snd (ret a b)).
Proof. apply book_shrinks_refl. Qed.

Lemma raise_shrinks {A} e b : book_shrinks b (snd ((raise e : SE OrderBook A) b)).
Proof. apply book_shrinks_refl. Qed.

Lemma execute_loop_shrinks fuel s k qty rem tside ts ta tl trades b :
  book_shrinks b (snd (execute_loop fuel s k qty rem tside ts ta tl trades b)).
Proof.
  revert qty rem trades b. induction fuel as [|fuel IH]; intros qty rem trades b; simpl.
  - apply book_shrinks_refl.
  - apply bind_shrinks; [apply get_level_shrinks|].
    intros level b1 E. apply get_level_inv in E as [-> Hg].
    destruct (lvl_queue level) as [|resting rest]; [apply ret_shrinks|].
    destruct (0 <? rem); [|apply ret_shrinks].
    apply bind_shrinks; [rewrite Trade_init_state; apply book_shrinks_refl|].
    intros tr b2 E2. assert (b2 = b) as ->.
    { pose proof (Trade_init_state (S := OrderBook)
        (trade_kwargs tside resting ta (lvl_price level) (Z.min rem (o_qty resting)) ts tl) b)
        as T. rewrite E2 in T. exact T. }
    apply bind_shrinks; [|intros; apply IH].
    destruct (Z.min rem (o_qty resting) =? o_qty resting).
    + apply bind_shrinks; [apply put_level_shrinks; exact Hg|].
      intros _ b3 _. apply book_shrinks_idx.
    + apply put_level_shrinks; exact Hg.
Qed.

Lemma execute_against_shrinks s k qty tside ts ta tl b :
  book_shrinks b (snd (execute_against s k qty tside ts ta tl b)).
Proof.
  unfold execute_against. apply bind_shrinks; [apply get_level_shrinks|].
  intros; apply execute_loop_shrinks.
Qed.

Lemma match_loop_shrinks fuel opp crosses o tl rem trades b :
  book_shrinks b (snd (match_loop fuel opp crosses o tl rem trades b)).
Proof.
  revert rem trades b. induction fuel as [|fuel IH]; intros rem trades b; simpl.
  - apply book_shrinks_refl.
  - apply bind_shrinks; [apply book_shrinks_refl|]. intros b0 b1 E. inversion E; subst.
    destruct (_ && _); [|apply ret_shrinks].
    destruct (best_key b1 opp) as [p|]; [|apply raise_shrinks].
    apply bind_shrinks; [apply get_level_shrinks|]. intros best b2 E2.
    apply get_level_inv in E2 as [-> _].
    destruct (negb (crosses (lvl_price best))); [apply ret_shrinks|].
    apply bind_shrinks; [apply execute_against_shrinks|]. intros [made filled] b3 _.
    apply bind_shrinks; [apply get_level_shrinks|]. intros best' b4 E4.
    apply get_level_inv in E4 as [-> _].
    apply bind_shrinks; [|intros; apply IH].
    destruct (lvl_queue best'); [apply del_level_shrinks|apply ret_shrinks].
Qed.

Lemma place_market_shrinks o b : book_shrinks b (snd (place_market o b)).
Proof.
  unfold place_market. destruct (negb (o_is_market o)); [apply raise_shrinks|].
  apply bind_shrinks; [apply book_shrinks_refl|]. intros b0 b1 E. inversion E; subst.
  apply bind_shrinks; [apply match_loop_shrinks|]. intros [tr r] b2 _. apply ret_shrinks.
Qed.

Lemma idx_del_shrinks i b : book_shrinks b (snd (idx_del i b)).
Proof.
  unfold idx_del. destruct (dict_get _ _ _); [apply book_shrinks_idx|apply book_shrinks_refl].
Qed.

Lemma cancel_shrinks i b : book_shrinks b (snd (cancel i b)).
Proof.
  unfold cancel. apply bind_shrinks; [apply book_shrinks_refl|]. intros b0 b1 E.
  inversion E; subst.
  destruct (dict_get Z.eqb (id_index b1) i) as [[price s]|]; [|apply ret_shrinks].
  destruct (dict_get Qeq_bool (side_book b1 s) price) as [lvl|] eqn:Hg; [|apply ret_shrinks].
  destruct (remove_first_id i (lvl_queue lvl)) as [removed newq].
  apply bind_shrinks; [apply put_level_shrinks; exact Hg|]. intros _ b2 _.
  apply bind_shrinks; [destruct newq; [apply del_level_shrinks|apply ret_shrinks]|].
  intros _ b3 _.
  apply bind_shrinks; [destruct removed; [apply idx_del_shrinks|apply ret_shrinks]|].
  intros; apply ret_shrinks.
Qed.
Lemma execute_loop_nonpos fuel s k qty rem tside ts ta tl trades b tr f b' :
  execute_loop fuel s k qty rem tside ts ta tl trades b = (Ok (tr, f), b') ->
  rem <= 0 -> f = qty - rem.
Proof.
  intros H Hr. destruct fuel; simpl in H; [inversion H; auto|].
  unfold bind, get_level in H. destruct (dict_get _ _ _) as [level|]; [|discriminate].
  destruct (lvl_queue level) as [|resting rest]; [inversion H; auto|].
  replace (0 <? rem) with false in H by (symmetry; apply Z.ltb_ge; lia).
  inversion H; auto.
Qed.

Lemma execute_loop_post fuel s k qty rem tside ts ta tl trades b tr f b' :
  (exists l, dict_get Qeq_bool (side_book b s) k = Some l /\
             (List.length (lvl_queue l) < fuel)%nat) ->
  execute_loop fuel s k qty rem tside ts ta tl trades b = (Ok (tr, f), b') ->
  qty - f <= 0 \/
  exists l, dict_get Qeq_bool (side_book b' s) k = Some l /\ lvl_queue l = [].
Proof.
  revert rem trades b. induction fuel as [|fuel IH]; intros rem trades b (l0 & Hg & Hlen) H.
  - lia.
  - simpl in H. unfold bind at 1, get_level at 1 in H. rewrite Hg in H.
    destruct (lvl_queue l0) as [|resting rest] eqn:Hq.
    { inversion H; subst. right. eauto. }
    destruct (0 <? rem) eqn:Hr; [|inversion H; subst; left; apply Z.ltb_ge in Hr; lia].
    unfold bind at 1 in H.
    match type of H with context [Trade_init ?kw b] =>
      pose proof (Trade_init_state kw b) as ET; destruct (Trade_init kw b) as [[tr0|e] b1] end;
      simpl in ET; subst b1; [|discriminate].
    destruct (Z.min rem (o_qty resting) =? o_qty resting) eqn:Ht.
    + unfold bind, put_level, idx_pop, modify in H.
      eapply IH; [|exact H].
      exists (set_queue l0 rest).
      rewrite side_book_set_idx, side_book_set_same, dict_get_set_same by apply Qeq_bool_refl.
      split; [reflexivity|]. simpl in Hlen |- *. lia.
    + unfold bind, put_level, modify in H.
      apply execute_loop_nonpos in H; [left; lia|].
      apply Z.eqb_neq in Ht.
      destruct (Z.min_spec rem (o_qty resting)) as [[? E]|[? E]]; rewrite E in *; lia.
Qed.

Lemma execute_against_post s k qty tside ts ta tl b tr f b' :
  execute_against s k qty tside ts ta tl b = (Ok (tr, f), b') ->
  qty - f <= 0 \/
  exists l, dict_get Qeq_bool (side_book b' s) k = Some l /\ lvl_queue l = [].
Proof.
  unfold execute_against, bind, get_level at 1.
  destruct (dict_get _ _ _) as [level|] eqn:Hg; [|discriminate].
  intros H. eapply execute_loop_post; [|exact H]. exists level. split; [exact Hg|lia].
Qed.
Lemma Qltb_true a b : Qltb a b = true -> (a < b)%Q.
Proof.
  unfold Qltb. intros H. apply negb_true_iff in H.
  apply Qnot_le_lt. intros Hle. apply Qle_bool_iff in Hle. congruence.
Qed.

Lemma Qltb_false a b : Qltb a b = false -> (b <= a)%Q.
Proof. unfold Qltb. intros H. apply negb_false_iff, Qle_bool_iff in H. exact H. Qed.

Lemma py_min_spec l m : py_min l = Some m -> forall x, In x l -> (m <= x)%Q.
Proof.
  destruct l as [|x0 r]; simpl; [discriminate|]. intros H. inversion H; subst m. clear H.
  assert (G : forall acc, (fold_left (fun m y => if Qltb y m then y else m) r acc <= acc)%Q /\
    forall x, In x r -> (fold_left (fun m y => if Qltb y m then y else m) r acc <= x)%Q).
  { induction r as [|y r IH]; intros acc; simpl.
    - split; [apply Qle_refl|intros _ []].
    - destruct (IH (if Qltb y acc then y else acc)) as [H1 H2].
      destruct (Qltb y acc) eqn:E.
      + apply Qltb_true in E. split.
        * apply Qlt_le_weak. eapply Qle_lt_trans; eauto.
        * intros x [<-|Hx]; auto.
      + apply Qltb_false in E. split; auto.
        intros x [<-|Hx]; auto. eapply Qle_trans; eauto. }
  intros x [E|Hx]; [subst x; apply (proj1 (G x0))|apply (proj2 (G x0)); auto].
Qed.

Lemma py_max_spec l m : py_max l = Some m -> forall x, In x l -> (x <= m)%Q.
Proof.
  destruct l as [|x0 r]; simpl; [discriminate|]. intros H. inversion H; subst m. clear H.
  assert (G : forall acc, (acc <= fold_left (fun m y => if Qltb m y then y else m) r acc)%Q /\
    forall x, In x r -> (x <= fold_left (fun m y => if Qltb m y then y else m) r acc)%Q).
  { induction r as [|y r IH]; intros acc; simpl.
    - split; [apply Qle_refl|intros _ []].
    - destruct (IH (if Qltb acc y then y else acc)) as [H1 H2].
      destruct (Qltb acc y) eqn:E.
      + apply Qltb_true in E. split.
        * apply Qlt_le_weak. eapply Qlt_le_trans; eauto.
        * intros x [<-|Hx]; auto.
      + apply Qltb_false in E. split; auto.
        intros x [<-|Hx]; auto. eapply Qle_trans; eauto. }
  intros x [E|Hx]; [subst x; apply (proj1 (G x0))|apply (proj2 (G x0)); auto].
Qed.

Lemma best_level_beyond b opp p best :
  keys_match (side_book b opp) -> best_key b opp = Some p ->
  dict_get Qeq_bool (side_book b opp) p = Some best ->
  forall k l, In (k, l) (side_book b opp) -> beyond opp (lvl_price best) (lvl_price l).
Proof.
  intros Hk Hp Hg k l Hi.
  destruct (dict_get_In _ _ _ _ Hg) as (k' & Hi' & Ek'). apply Qeq_bool_iff in Ek'.
  pose proof (Hk _ _ Hi') as Eb. pose proof (Hk _ _ Hi) as El.
  assert (Hin : In k (map fst (side_book b opp))) by (apply (in_map fst) in Hi; exact Hi).
  destruct opp; simpl in *.
  - pose proof (py_max_spec _ _ Hp _ Hin) as L. rewrite El, Eb, Ek'. exact L.
  - pose proof (py_min_spec _ _ Hp _ Hin) as L. rewrite El, Eb, Ek'. exact L.
Qed.

Lemma match_loop_nonpos fuel opp crosses o tl rem trades b tr' rem' b' :
  match_loop fuel opp crosses o tl rem trades b = (Ok (tr', rem'), b') ->
  rem <= 0 -> rem' = rem.
Proof.
  intros H Hr. destruct fuel; cbn [match_loop] in H; [inversion H; auto|].
  unfold bind, get in H.
  replace (0 <? rem) with false in H by (symmetry; apply Z.ltb_ge; lia).
  simpl in H. inversion H; auto.
Qed.

Lemma book_shrinks_on b b' s :
  book_shrinks b b' -> shrinks (side_book b s) (side_book b' s).
Proof. intros [? ?]; destruct s; assumption. Qed.

Lemma match_loop_post fuel opp crosses o tl rem trades b tr' rem' b' :
  keys_match (side_book b opp) ->
  (List.length (side_book b opp) < fuel)%nat ->
  match_loop fuel opp crosses o tl rem trades b = (Ok (tr', rem'), b') ->
  0 < rem' ->
  forall k l, In (k, l) (side_book b' opp) ->
  exists x, crosses x = false /\ beyond opp x (lvl_price l).
Proof.
  revert rem trades b. induction fuel as [|fuel IH]; intros rem trades b Hk Hlen H Hpos.
  - simpl in Hlen. lia.
  - cbn [match_loop] in H. unfold bind, get in H.
    destruct (0 <? rem) eqn:Hr; simpl in H.
    2:{ inversion H; subst. apply Z.ltb_ge in Hr. lia. }
    destruct (side_book b opp) as [|e d] eqn:Hs; simpl in H.
    { inversion H; subst. rewrite Hs. intros k l []. }
    rewrite <- Hs in *.
    destruct (best_key b opp) as [p|] eqn:Hp; [|discriminate].
    unfold get_level at 1 in H.
    destruct (dict_get Qeq_bool (side_book b opp) p) as [best|] eqn:Hg; [|discriminate].
    destruct (crosses (lvl_price best)) eqn:Hc; simpl in H.
    2:{ inversion H; subst. intros k l Hi. exists (lvl_price best). split; [exact Hc|].
        eapply best_level_beyond; eauto. }
    destruct (execute_against opp p rem (o_side o) (o_ts o) (o_agent_id o) tl b)
      as [[[made filled]|err] b3] eqn:Ex; [|discriminate].
    pose proof (execute_against_shrinks opp p rem (o_side o) (o_ts o) (o_agent_id o) tl b)
      as S3. rewrite Ex in S3. simpl in S3.
    apply execute_against_post in Ex as Hpost.
    unfold get_level at 1 in H.
    destruct (dict_get Qeq_bool (side_book b3 opp) p) as [best'|] eqn:Hg3; [|discriminate].
    destruct (lvl_queue best') as [|x q] eqn:Hq3.
    + unfold del_level at 1 in H.
      destruct (dict_get Qeq_bool (side_book b3 opp) (lvl_price best')) as [v|] eqn:Hd;
        [|discriminate].
      pose proof (book_shrinks_on _ _ opp S3) as S3'.
      eapply IH; [| |exact H|exact Hpos]; rewrite side_book_set_same.
      * eapply keys_match_shrinks; [eapply keys_match_shrinks; eauto|apply shrinks_remove].
      * pose proof (dict_remove_length _ _ _ _ Hd). destruct S3' as [L _]. simpl in Hlen. lia.
    + simpl in H. destruct Hpost as [Hn|(l & Hl & Hlq)].
      * apply match_loop_nonpos in H; [lia|lia].
      * inversion Hl; subst. congruence.
Qed.
Lemma book_inv_grow_bids b d' :
  book_inv b ->
  grown (bids b) d' (fun l' => forall ka la, In (ka, la) (asks b) -> (lvl_price l' < lvl_price la)%Q) ->
  book_inv (set_bids b d').
Proof.
  intros (Hb & Ha & Hu) G. split; [|split]; simpl; auto.
  - intros k l' Hi. destruct (G _ _ Hi) as [(l & Hl & E)|(E & _)]; auto.
    rewrite <- E. eauto.
  - intros kb lb ka la Hib Hia. destruct (G _ _ Hib) as [(l & Hl & E)|(_ & Hok)]; eauto.
    rewrite <- E. eauto.
Qed.

Lemma book_inv_grow_asks b d' :
  book_inv b ->
  grown (asks b) d' (fun l' => forall kb lb, In (kb, lb) (bids b) -> (lvl_price lb < lvl_price l')%Q) ->
  book_inv (set_asks b d').
Proof.
  intros (Hb & Ha & Hu) G. split; [|split]; simpl; auto.
  - intros k l' Hi. destruct (G _ _ Hi) as [(l & Hl & E)|(E & _)]; auto.
    rewrite <- E. eauto.
  - intros kb lb ka la Hib Hia. destruct (G _ _ Hia) as [(l & Hl & E)|(_ & Hok)]; eauto.
    rewrite <- E. eauto.
Qed.

Lemma grown_set_level d price qq (ok : PriceLevel -> Prop) :
  keys_match d ->
  (forall l, lvl_price l = price -> ok l) ->
  grown d (dict_set Qeq_bool d price
             (set_queue (match dict_get Qeq_bool d price with
                         | Some l => l
                         | None => {| lvl_price := price; lvl_queue := [] |}
                         end) qq)) ok.
Proof.
  intros Hk Hok k l' Hi. apply In_dict_set in Hi.
  destruct Hi as [Hi|(-> & [(v0 & Hv & Hi)|(Hv & ->)])]; eauto.
  - left. rewrite Hv. eauto.
  - right. rewrite Hv. split; [apply Qeq_refl|apply Hok; reflexivity].
Qed.

Lemma place_limit_inv o b : book_inv b -> book_inv (snd (place_limit o b)).
Proof.
  intros Hinv. unfold place_limit.
  destruct (o_is_market o); [exact Hinv|].
  destruct (o_price o) as [price|]; [|exact Hinv].
  unfold bind, get; cbn beta iota.
  destruct (negb (conform_price (tick b) price)); [exact Hinv|]. cbn beta iota.
  set (opp := opposite (o_side o)).
  set (crosses := match o_side o with
                  | BUY => fun best : Q => negb (Qltb price best)
                  | SELL => fun best : Q => negb (Qltb best price)
                  end).
  destruct (match_loop (S (Datatypes.length (side_book b opp))) opp crosses o
              (Some price) (o_qty o) [] b) as [[[trades rem]|err] b2] eqn:Hm;
  pose proof (match_loop_shrinks (S (Datatypes.length (side_book b opp))) opp crosses o
                (Some price) (o_qty o) [] b) as S2; rewrite Hm in S2; simpl in S2;
  pose proof (book_inv_shrinks _ _ Hinv S2) as Hinv2; [|exact Hinv2].
  destruct (0 <? rem) eqn:Hr; [|exact Hinv2].
  assert (Hk : keys_match (side_book b opp)) by (destruct Hinv as (? & ? & ?); destruct opp; auto).
  assert (Hpost := match_loop_post _ _ _ _ _ _ _ _ _ _ _ Hk (Nat.lt_succ_diag_r _) Hm
                     (proj1 (Z.ltb_lt _ _) Hr)).
  unfold put_level, modify, ret. simpl.
  destruct Hinv2 as (Hb2 & Ha2 & Hu2).
  unfold opp, crosses in Hpost. destruct (o_side o); simpl in Hpost |- *.
  - apply book_inv_grow_bids; [split; auto|].
    apply grown_set_level; [exact Hb2|].
    intros l El ka la Hia. destruct (Hpost _ _ Hia) as (x & Hx & Hle).
    apply negb_false_iff, Qltb_true in Hx. rewrite El. eapply Qlt_le_trans; eauto.
  - apply book_inv_grow_asks; [split; auto|].
    apply grown_set_level; [exact Ha2|].
    intros l El kb lb Hib. destruct (Hpost _ _ Hib) as (x & Hx & Hle).
    apply negb_false_iff, Qltb_true in Hx. rewrite El. eapply Qle_lt_trans; eauto.
Qed.

Lemma book_inv_new tick_size : book_inv (new_book tick_size).
Proof. split; [|split]; unfold keys_match, uncrossed; simpl; tauto. Qed.

Lemma run_book_op_inv op b : book_inv b -> book_inv (run_book_op op b).
Proof.
  intros H. destruct op as [o|o|i]; simpl.
  - apply place_limit_inv, H.
  - exact (book_inv_shrinks _ _ H (place_market_shrinks o b)).
  - exact (book_inv_shrinks _ _ H (cancel_shrinks i b)).
Qed.

Lemma run_book_ops_inv ops b : book_inv b -> book_inv (run_book_ops ops b).
Proof.
  revert b. induction ops as [|op ops IH]; intros b H; simpl; auto.
  apply IH, run_book_op_inv, H.
Qed.

Lemma top_of_book_levels b bb ba :
  fst (top_of_book b) = Ok (Some bb, Some ba) ->
  (exists kb lb, In (kb, lb) (bids b) /\ lvl_price lb = bb) /\
  (exists ka la, In (ka, la) (asks b) /\ lvl_price la = ba).
Proof.
  unfold top_of_book, bind, get, ret, get_level. simpl. intros E.
  destruct (py_max (map fst (bids b))) as [pb|];
    [|destruct (py_min (map fst (asks b))) as [pa|];
      [destruct (dict_get Qeq_bool (asks b) pa)|]; simpl in E; inversion E].
  destruct (dict_get Qeq_bool (bids b) pb) as [lb|] eqn:Hb; [|simpl in E; inversion E].
  destruct (py_min (map fst (asks b))) as [pa|]; [|simpl in E; inversion E].
  destruct (dict_get Qeq_bool (asks b) pa) as [la|] eqn:Ha; simpl in E; inversion E; subst.
  destruct (dict_get_In _ _ _ _ Hb) as (kb & Hib & _).
  destruct (dict_get_In _ _ _ _ Ha) as (ka & Hia & _).
  split; eauto.
Qed.

(** C3: starting from an empty book, after any sequence of [place_limit],
    [place_market] and [cancel] calls (a call that raises leaves the book as
    it was at the raise), every resting bid level is priced strictly below
    every resting ask level, and whenever [top_of_book] reports both a best
    bid and a best ask, best bid < best ask. *)
Theorem book_never_crossed (tick_size : Q) (ops : list BookOp) :
  let b := run_book_ops ops (new_book tick_size) in
  uncrossed (bids b) (asks b) /\
  forall bb ba, fst (top_of_book b) = Ok (Some bb, Some ba) -> (bb < ba)%Q.
Proof.
  intros b. pose proof (run_book_ops_inv ops _ (book_inv_new tick_size)) as (_ & _ & Hu).
  fold b in Hu. split; [exact Hu|].
  intros bb ba Htop. apply top_of_book_levels in Htop as [(kb & lb & Hib & <-) (ka & la & Hia & <-)].
  eauto.
Qed.

Lemma book_never_crossed_witness :
  fst (top_of_book (run_book_ops c3_ops (new_book (1 # 100)))) = Ok (None, Some 100%Q) /\
  fst (top_of_book (run_book_ops (firstn 2 c3_ops) (new_book (1 # 100))))
    = Ok (Some 99%Q, Some 100%Q) /\
  (99 < 100)%Q.
Proof.
  split; [vm_compute; reflexivity|]. split; [vm_compute; reflexivity|].
  apply (proj2 (book_never_crossed (1 # 100) (firstn 2 c3_ops)) 99%Q 100%Q).
  vm_compute. reflexivity.
Defined.

(* ------------------------------------------------------------------ *)
(** ** Further properties of the code *)

Section FirstBest.
Variable better : Q -> Q -> bool.
Hypothesis better_irrefl : forall a b, better a b = true -> Qeq_bool b a = false.
Hypothesis better_trans : forall a b c, better a b = true -> better b c = true -> better a c = true.
Hypothesis better_total : forall a b c, better a b = true -> better c b = false -> better a c = true.

Lemma dict_get_app_skip (pre l : list (Q * PriceLevel)) k :
  (forall e, In e pre -> Qeq_bool (fst e) k = false) ->
  dict_get Qeq_bool (pre ++ l) k = dict_get Qeq_bool l k.
Proof.
  induction pre as [|[k0 v0] pre IH]; simpl; intros H; auto.
  pose proof (H (k0, v0) (or_introl eq_refl)) as E. simpl in E. rewrite E. apply IH. auto.
Qed.

Lemma fold_pick_get r : forall pre x0 mid,
  (forall e, In e pre -> better (fst x0) (fst e) = true) ->
  (forall e, In e mid -> better (fst e) (fst x0) = false) ->
  dict_get Qeq_bool (pre ++ x0 :: mid ++ r) (fst (fold_left (pick better) r x0)) =
    Some (snd (fold_left (pick better) r x0)).
Proof.
  induction r as [|y r IH]; intros pre x0 mid Hpre Hmid; simpl.
  - rewrite dict_get_app_skip.
    + simpl. destruct x0 as [k v]. simpl. rewrite Qeq_bool_refl. reflexivity.
    + intros e He. apply better_irrefl, Hpre, He.
  - destruct (better (fst y) (fst x0)) eqn:E.
    + replace ((pick better) x0 y) with y by (unfold pick; rewrite E; reflexivity).
      replace (pre ++ x0 :: mid ++ y :: r) with ((pre ++ x0 :: mid) ++ y :: [] ++ r)
        by (rewrite <- app_assoc; reflexivity).
      apply IH; [|intros e []].
      intros e He. apply in_app_or in He as [He|[<-|He]]; eauto.
    + replace ((pick better) x0 y) with x0 by (unfold pick; rewrite E; reflexivity).
      replace (pre ++ x0 :: mid ++ y :: r) with (pre ++ x0 :: (mid ++ [y]) ++ r)
        by (rewrite <- app_assoc; reflexivity).
      apply IH; auto.
      intros e He. apply in_app_or in He as [He|[<-|[]]]; auto.
Qed.

Lemma fold_insert_head r : forall y acc,
  exists rest, fold_left (fun acc x => insert_by (fun x y => better (fst x) (fst y)) x acc) r (y :: acc)
               = fold_left (pick better) r y :: rest.
Proof.
  induction r as [|x r IH]; intros y acc; simpl; [eauto|].
  destruct (better (fst x) (fst y)) eqn:E.
  - replace ((pick better) y x) with x by (unfold pick; rewrite E; reflexivity). apply IH.
  - replace ((pick better) y x) with y by (unfold pick; rewrite E; reflexivity). apply IH.
Qed.

End FirstBest.

Lemma fold_pick_fst (better : Q -> Q -> bool) r x0 :
  fold_left (fun m y => if better y m then y else m) (map fst r) (fst x0) =
  fst (fold_left (pick better) r x0).
Proof.
  revert x0. induction r as [|y r IH]; intros x0; simpl; auto.
  unfold pick at 2. destruct (better (fst y) (fst x0)); apply IH.
Qed.

Lemma better_max_irrefl a b : Qltb b a = true -> Qeq_bool b a = false.
Proof.
  intros H. apply Qltb_true in H. destruct (Qeq_bool b a) eqn:E; auto.
  apply Qeq_bool_iff in E. rewrite E in H. destruct (Qlt_irrefl _ H).
Qed.

Lemma better_min_irrefl a b : Qltb a b = true -> Qeq_bool b a = false.
Proof.
  intros H. apply Qltb_true in H. destruct (Qeq_bool b a) eqn:E; auto.
  apply Qeq_bool_iff in E. rewrite E in H. destruct (Qlt_irrefl _ H).
Qed.

Lemma Qltb_true_iff a b : Qltb a b = true <-> (a < b)%Q.
Proof.
  split; [apply Qltb_true|]. intros H. destruct (Qltb a b) eqn:E; auto.
  apply Qltb_false in E. destruct (Qlt_not_le _ _ H E).
Qed.

Ltac qltb_solve :=
  cbv beta in *;
  repeat match goal with
  | H : Qltb _ _ = true |- _ => apply Qltb_true in H
  | H : Qltb _ _ = false |- _ => apply Qltb_false in H
  | |- Qltb _ _ = true => apply Qltb_true_iff
  end;
  solve [eauto using Qlt_trans, Qle_lt_trans, Qlt_le_trans].

Lemma snapshot_head_gen (better : Q -> Q -> bool) d top_k
    (Hirr : forall a b, better a b = true -> Qeq_bool b a = false)
    (Htr : forall a b c, better a b = true -> better b c = true -> better a c = true)
    (Htot : forall a b c, better a b = true -> better c b = false -> better a c = true) :
  0 < top_k ->
  match d with
  | [] => map (fun kv => (fst kv, sum_qty (lvl_queue (snd kv))))
            (py_take (stable_sort (fun x y => better (fst x) (fst y)) d) top_k) = []
  | x0 :: r =>
      let p := fold_left (fun m y => if better y m then y else m) (map fst r) (fst x0) in
      exists rest,
        map (fun kv => (fst kv, sum_qty (lvl_queue (snd kv))))
          (py_take (stable_sort (fun x y => better (fst x) (fst y)) d) top_k) =
        (p, match dict_get Qeq_bool d p with None => 0 | Some l => sum_qty (lvl_queue l) end)
          :: rest
  end.
Proof.
  intros Hk. destruct d as [|x0 r].
  { unfold py_take; simpl. destruct (0 <=? top_k); rewrite firstn_nil; reflexivity. }
  unfold stable_sort. simpl.
  destruct (fold_insert_head better r x0 []) as (rest & E). rewrite E.
  unfold py_take. replace (0 <=? top_k) with true by (symmetry; apply Z.leb_le; lia).
  destruct (Z.to_nat top_k) as [|n] eqn:En; [lia|]. simpl.
  rewrite fold_pick_fst.
  pose proof (fold_pick_get better Hirr Htr Htot r [] x0 [] ltac:(intros e [])
                ltac:(intros e [])) as G. simpl in G. rewrite G.
  eexists. reflexivity.
Qed.

(** X1: For top_k > 0, snapshot_depth puts the best bid level first in "bids" and the best ask level first in "asks", each paired with that level's depth_at_level. A side with no levels gives an empty list. *)
Theorem snapshot_depth_head b top_k :
  0 < top_k ->
  match best_key b BUY with
  | None => fst (snapshot_depth b top_k) = []
  | Some p => exists rest, fst (snapshot_depth b top_k) = (p, depth_at_level b p BUY) :: rest
  end /\
  match best_key b SELL with
  | None => snd (snapshot_depth b top_k) = []
  | Some p => exists rest, snd (snapshot_depth b top_k) = (p, depth_at_level b p SELL) :: rest
  end.
Proof.
  intros Hk. split.
  - pose proof (snapshot_head_gen (fun a b => Qltb b a) (bids b) top_k
      ltac:(intros; apply better_max_irrefl; auto) ltac:(intros; qltb_solve)
      ltac:(intros; qltb_solve) Hk) as G.
    unfold best_key, snapshot_depth, depth_at_level, sort_levels_desc. simpl.
    destruct (bids b) as [|x0 r]; exact G.
  - pose proof (snapshot_head_gen (fun a b => Qltb a b) (asks b) top_k
      ltac:(intros; apply better_min_irrefl; auto) ltac:(intros; qltb_solve)
      ltac:(intros; qltb_solve) Hk) as G.
    unfold best_key, snapshot_depth, depth_at_level, sort_levels_asc. simpl.
    destruct (asks b) as [|x0 r]; exact G.
Qed.

Lemma insert_by_perm {A} (before : A -> A -> bool) x l :
  Permutation (x :: l) (insert_by before x l).
Proof.
  induction l as [|y l IH]; simpl; auto.
  destruct (before x y); auto.
  transitivity (y :: x :: l); [apply perm_swap|]. auto.
Qed.

Lemma stable_sort_perm {A} (before : A -> A -> bool) l :
  Permutation l (stable_sort before l).
Proof.
  unfold stable_sort. change l with ([] ++ l) at 1. generalize (@nil A) as acc.
  induction l as [|x l IH]; intros acc; simpl; [rewrite app_nil_r; auto|].
  rewrite <- IH. rewrite <- Permutation_middle.
  change (x :: acc ++ l) with ((x :: acc) ++ l).
  apply Permutation_app_tail, insert_by_perm.
Qed.

Lemma insert_by_sorted {A} (before : A -> A -> bool) x l :
  (forall a b, before a b = true -> before b a = false) ->
  Sorted (fun a b => before b a = false) l ->
  Sorted (fun a b => before b a = false) (insert_by before x l).
Proof.
  intros Has. induction l as [|y l IH]; simpl; intros Hs.
  - repeat constructor.
  - destruct (before x y) eqn:E.
    + constructor; [exact Hs|constructor; apply Has, E].
    + inversion Hs as [|? ? Hl Hh]; subst. constructor; [apply IH, Hl|].
      destruct l as [|z l]; simpl; [constructor; exact E|].
      destruct (before x z); constructor; [exact E|inversion Hh; assumption].
Qed.

Lemma stable_sort_sorted {A} (before : A -> A -> bool) l :
  (forall a b, before a b = true -> before b a = false) ->
  Sorted (fun a b => before b a = false) (stable_sort before l).
Proof.
  intros Has. unfold stable_sort.
  assert (G : forall acc, Sorted (fun a b => before b a = false) acc ->
            Sorted (fun a b => before b a = false)
              (fold_left (fun acc x => insert_by before x acc) l acc)).
  { induction l as [|x l IH]; intros acc H; simpl; auto. apply IH, insert_by_sorted; auto. }
  apply G. constructor.
Qed.

Lemma Sorted_firstn {A} (R : A -> A -> Prop) n l : Sorted R l -> Sorted R (firstn n l).
Proof.
  revert n. induction l as [|y l IH]; intros n Hs; destruct n; simpl; auto.
  inversion Hs as [|? ? Hl Hh]; subst. constructor; [apply IH, Hl|].
  destruct l; destruct n; simpl; constructor. inversion Hh; assumption.
Qed.

Lemma Sorted_map_rel {A B} (R : A -> A -> Prop) (R' : B -> B -> Prop) (f : A -> B) l :
  (forall x y, R x y -> R' (f x) (f y)) -> Sorted R l -> Sorted R' (map f l).
Proof.
  intros HR. induction 1 as [|y l Hl IH Hh]; simpl; constructor; auto.
  destruct Hh; simpl; constructor; auto.
Qed.

(** X2: For top_k >= 0, "bids" holds min(top_k, number of bid levels) entries in non-increasing price order. "asks" holds min(top_k, number of ask levels) entries in non-decreasing price order. *)
Theorem snapshot_depth_sorted b top_k :
  0 <= top_k ->
  List.length (fst (snapshot_depth b top_k)) = Nat.min (Z.to_nat top_k) (List.length (bids b)) /\
  Sorted (fun x y => (fst y <= fst x)%Q) (fst (snapshot_depth b top_k)) /\
  List.length (snd (snapshot_depth b top_k)) = Nat.min (Z.to_nat top_k) (List.length (asks b)) /\
  Sorted (fun x y => (fst x <= fst y)%Q) (snd (snapshot_depth b top_k)).
Proof.
  intros Hk. unfold snapshot_depth, py_take, sort_levels_desc, sort_levels_asc. simpl.
  replace (0 <=? top_k) with true by (symmetry; apply Z.leb_le; lia).
  rewrite !length_map, !length_firstn.
  rewrite <- !(Permutation_length (stable_sort_perm _ _)).
  split; [reflexivity|]. split; [|split; [reflexivity|]].
  - eapply Sorted_map_rel; [|apply Sorted_firstn, stable_sort_sorted].
    + intros x y H. simpl. apply Qltb_false, H.
    + intros x y H. apply Qltb_true in H. apply negb_false_iff, Qle_bool_iff, Qlt_le_weak, H.
  - eapply Sorted_map_rel; [|apply Sorted_firstn, stable_sort_sorted].
    + intros x y H. simpl. apply Qltb_false, H.
    + intros x y H. apply Qltb_true in H. apply negb_false_iff, Qle_bool_iff, Qlt_le_weak, H.
Qed.

Lemma py_max_In l m : py_max l = Some m -> In m l.
Proof.
  destruct l as [|x r]; simpl; [discriminate|]. intros H; inversion H; subst; clear H.
  revert x. induction r as [|y r IH]; intros x; simpl; auto.
  destruct (Qltb x y); [destruct (IH y)|destruct (IH x)]; auto.
Qed.

Lemma py_min_In l m : py_min l = Some m -> In m l.
Proof.
  destruct l as [|x r]; simpl; [discriminate|]. intros H; inversion H; subst; clear H.
  revert x. induction r as [|y r IH]; intros x; simpl; auto.
  destruct (Qltb y x); [destruct (IH y)|destruct (IH x)]; auto.
Qed.

Lemma best_key_In b s p : best_key b s = Some p -> In p (map fst (side_book b s)).
Proof. destruct s; simpl; [apply py_max_In|apply py_min_In]. Qed.

Lemma best_key_some b s e d : side_book b s = e :: d -> exists p, best_key b s = Some p.
Proof. destruct s; simpl; intros ->; simpl; eauto. Qed.

Lemma dict_get_key_In (d : list (Q * PriceLevel)) k :
  In k (map fst d) -> exists v, dict_get Qeq_bool d k = Some v.
Proof.
  induction d as [|[k0 v0] d IH]; simpl; [intros []|].
  intros [<-|H]; [rewrite Qeq_bool_refl; eauto|].
  destruct (Qeq_bool k0 k); eauto.
Qed.

Lemma match_loop_no_match fuel opp crosses o tl rem trades b :
  (forall k l, In (k, l) (side_book b opp) -> crosses (lvl_price l) = false) ->
  match_loop (S fuel) opp crosses o tl rem trades b = (Ok (trades, rem), b).
Proof.
  intros H. cbn [match_loop]. unfold bind, get.
  destruct (0 <? rem); simpl; [|reflexivity].
  destruct (side_book b opp) as [|e d] eqn:Hs; simpl; [reflexivity|].
  destruct (best_key_some _ _ _ _ Hs) as (p & Hp). rewrite Hp.
  pose proof (best_key_In _ _ _ Hp) as Hin.
  destruct (dict_get_key_In _ _ Hin) as (v & Hv).
  unfold get_level. rewrite Hv.
  destruct (dict_get_In _ _ _ _ Hv) as (k' & Hi & _).
  rewrite Hs in Hi. rewrite (H _ _ Hi). reflexivity.
Qed.

Lemma dict_set_set {K V} (keq : K -> K -> bool) d k (v1 v2 : V) :
  keq k k = true -> dict_set keq (dict_set keq d k v1) k v2 = dict_set keq d k v2.
Proof.
  intros Hr. induction d as [|[k0 v0] d IH]; simpl.
  - now rewrite Hr.
  - destruct (keq k0 k) eqn:E; simpl; rewrite E; [reflexivity|now rewrite IH].
Qed.

Lemma dict_set_get_id {K V} (keq : K -> K -> bool) d k (v : V) :
  dict_get keq d k = Some v -> dict_set keq d k v = d.
Proof.
  induction d as [|[k0 v0] d IH]; simpl; [discriminate|].
  destruct (keq k0 k); [intros H; inversion H; reflexivity|intros H; now rewrite IH].
Qed.

Lemma dict_remove_set_new {K V} (keq : K -> K -> bool) d k (v : V) :
  keq k k = true -> dict_get keq d k = None -> dict_remove keq (dict_set keq d k v) k = d.
Proof.
  intros Hr. induction d as [|[k0 v0] d IH]; simpl.
  - now rewrite Hr.
  - destruct (keq k0 k) eqn:E; [discriminate|]. simpl. rewrite E. intros H. now rewrite IH.
Qed.

Lemma sum_qty_app q1 q2 : sum_qty (q1 ++ q2) = sum_qty q1 + sum_qty q2.
Proof. induction q1; simpl; lia. Qed.

Lemma remove_first_id_last i q r :
  Forall (fun x => o_id x <> i) q -> o_id r = i -> remove_first_id i (q ++ [r]) = (true, q).
Proof.
  intros Hq Hr. induction Hq as [|x q Hx Hq IH]; simpl.
  - now rewrite Hr, Z.eqb_refl.
  - apply Z.eqb_neq in Hx. rewrite Hx, IH. reflexivity.
Qed.

Lemma set_queue_set_queue l q1 q2 : set_queue (set_queue l q1) q2 = set_queue l q2.
Proof. reflexivity. Qed.

Lemma set_queue_id l : set_queue l (lvl_queue l) = l.
Proof. destruct l; reflexivity. Qed.

(** X3: Take an aligned limit order with positive quantity and an unused id that does not cross the opposite side. If its price level is either absent or non-empty and free of that id, place_limit returns no trades and raises depth at that price by the order's quantity. Cancelling the id afterwards returns True and restores the original book exactly. *)
Theorem place_limit_cancel_roundtrip b o price :
  o_is_market o = false -> o_price o = Some price -> conform_price (tick b) price = true ->
  0 < o_qty o ->
  dict_get Z.eqb (id_index b) (o_id o) = None ->
  (forall l, dict_get Qeq_bool (side_book b (o_side o)) price = Some l ->
     lvl_queue l <> [] /\ Forall (fun r => o_id r <> o_id o) (lvl_queue l)) ->
  (forall k l, In (k, l) (side_book b (opposite (o_side o))) ->
     no_cross (o_side o) price (lvl_price l)) ->
  fst (place_limit o b) = Ok [] /\
  depth_at_level (snd (place_limit o b)) price (o_side o) =
    depth_at_level b price (o_side o) + o_qty o /\
  cancel (o_id o) (snd (place_limit o b)) = (Ok true, b).
Proof.
  intros Hm Hp Hc Hq Hid Hown Hopp.
  assert (Hml : forall fuel, match_loop (S fuel) (opposite (o_side o))
      (match o_side o with
       | BUY => fun best => negb (Qltb price best)
       | SELL => fun best => negb (Qltb best price)
       end) o (Some price) (o_qty o) [] b = (Ok ([], o_qty o), b)).
  { intros fuel. apply match_loop_no_match. intros k l Hi. specialize (Hopp _ _ Hi).
    destruct (o_side o); simpl in *; apply negb_false_iff, Qltb_true_iff; exact Hopp. }
  set (s := o_side o) in *.
  set (lvl := match dict_get Qeq_bool (side_book b s) price with
              | Some l => l | None => {| lvl_price := price; lvl_queue := [] |} end).
  set (b1 := set_id_index (set_side_book b s (dict_set Qeq_bool (side_book b s) price
                 (set_queue lvl (lvl_queue lvl ++ [with_qty o (o_qty o)]))))
               (dict_set Z.eqb (id_index b) (o_id o) (price, s))).
  assert (HP : place_limit o b = (Ok [], b1)).
  { unfold place_limit. rewrite Hm, Hp. unfold bind at 1, get at 1. rewrite Hc. cbn -[match_loop].
    unfold bind at 1. fold s. rewrite Hml.
    assert (Hq' : (0 <? o_qty o) = true) by (apply Z.ltb_lt; exact Hq). rewrite Hq'.
    unfold bind, get, put_level, modify, ret. fold s. subst b1 lvl.
    destruct s; reflexivity. }
  rewrite HP. simpl fst; simpl snd. split; [reflexivity|].
  assert (Hsb : side_book b1 s = dict_set Qeq_bool (side_book b s) price
                 (set_queue lvl (lvl_queue lvl ++ [with_qty o (o_qty o)]))).
  { subst b1. now rewrite side_book_set_idx, side_book_set_same. }
  assert (Hgl : dict_get Qeq_bool (side_book b1 s) price =
                Some (set_queue lvl (lvl_queue lvl ++ [with_qty o (o_qty o)]))).
  { rewrite Hsb. apply dict_get_set_same, Qeq_bool_refl. }
  split.
  { unfold depth_at_level. rewrite Hgl. cbn [lvl_queue set_queue]. rewrite sum_qty_app.
    subst lvl. destruct (dict_get Qeq_bool (side_book b s) price); simpl; lia. }
  assert (Hix : dict_get Z.eqb (id_index b1) (o_id o) = Some (price, s)).
  { subst b1. simpl. apply dict_get_set_same, Z.eqb_refl. }
  unfold cancel, bind at 1, get at 1. rewrite Hix, Hgl. cbn [lvl_queue set_queue].
  assert (Hfa : Forall (fun r => o_id r <> o_id o) (lvl_queue lvl)).
  { subst lvl. destruct (dict_get Qeq_bool (side_book b s) price) eqn:E.
    - apply (Hown _ eq_refl).
    - constructor. }
  rewrite (remove_first_id_last _ _ (with_qty o (o_qty o)) Hfa eq_refl).
  rewrite set_queue_set_queue.
  assert (Hi1 : id_index b1 = dict_set Z.eqb (id_index b) (o_id o) (price, s))
    by (subst b1; reflexivity).
  assert (Hrm : dict_remove Z.eqb (id_index b1) (o_id o) = id_index b)
    by (rewrite Hi1; apply dict_remove_set_new; [apply Z.eqb_refl|exact Hid]).
  unfold bind, put_level, modify, idx_del, del_level, ret.
  rewrite Hsb, dict_set_set by apply Qeq_bool_refl.
  subst lvl. destruct (dict_get Qeq_bool (side_book b s) price) as [l|] eqn:E.
  - destruct (Hown _ eq_refl) as [Hne _]. rewrite set_queue_id, (dict_set_get_id _ _ _ _ E).
    destruct (lvl_queue l) as [|r q] eqn:El; [congruence|].
    replace (id_index (set_side_book b1 s (side_book b s))) with (id_index b1) by (destruct s; reflexivity).
    rewrite Hix, Hrm. subst b1. destruct b, s; reflexivity.
  - cbn [lvl_queue set_queue]. rewrite side_book_set_same, dict_get_set_same by apply Qeq_bool_refl.
    rewrite dict_remove_set_new by (apply Qeq_bool_refl || exact E).
    replace (id_index (set_side_book (set_side_book b1 s _) s (side_book b s))) with (id_index b1)
      by (destruct s; reflexivity).
    rewrite Hix, Hrm. subst b1. destruct b, s; reflexivity.
Qed.

Lemma zget_notin {V} (d : list (Z * V)) k :
  ~ In k (map fst d) -> dict_get Z.eqb d k = None.
Proof.
  induction d as [|[k0 v0] d IH]; simpl; auto.
  intros Hn. destruct (Z.eqb_spec k0 k); [subst; tauto|]. apply IH. tauto.
Qed.

Lemma zget_remove_nodup {V} (d : list (Z * V)) k :
  NoDup (map fst d) -> dict_get Z.eqb (dict_remove Z.eqb d k) k = None.
Proof.
  induction d as [|[k0 v0] d IH]; simpl; auto.
  intros Hn. inversion Hn as [|? ? Hk Hd]; subst.
  destruct (Z.eqb_spec k0 k) as [->|Hne]; [now apply zget_notin|].
  simpl. apply Z.eqb_neq in Hne. rewrite Hne. auto.
Qed.

Lemma id_index_set_side b s d : id_index (set_side_book b s d) = id_index b.
Proof. destruct s; reflexivity. Qed.

Lemma cancel_true_index i b b' :
  cancel i b = (Ok true, b') -> id_index b' = dict_remove Z.eqb (id_index b) i.
Proof.
  unfold cancel, bind, get, put_level, modify, del_level, idx_del, ret.
  destruct (dict_get Z.eqb (id_index b) i) as [[p s]|] eqn:E1; [|intros H; inversion H].
  destruct (dict_get Qeq_bool (side_book b s) p) as [l|] eqn:E2; [|intros H; inversion H].
  destruct (remove_first_id i (lvl_queue l)) as [r q] eqn:E3.
  destruct q as [|o q]; cbv beta iota;
    [rewrite side_book_set_same, dict_get_set_same by apply Qeq_bool_refl|];
    (destruct r; [|intros H; inversion H]); cbv beta iota;
    rewrite ?id_index_set_side, E1; intros H; inversion H; subst; simpl;
    now rewrite ?id_index_set_side.
Qed.

Lemma bind_keeps {S A B} (P : S -> Prop) (m : SE S A) (k : A -> SE S B) s :
  P (snd (m s)) ->
  (forall a s', m s = (Ok a, s') -> P s' -> P (snd (k a s'))) ->
  P (snd (bind m k s)).
Proof.
  intros H1 H2. unfold bind. destruct (m s) as [[a|e] s'] eqn:E; simpl in *; auto.
Qed.

Section Keeps.
Variable opp : Side.
Variable P : OrderBook -> Prop.
Hypothesis P_side : forall b d, P b -> P (set_side_book b opp d).
Hypothesis P_idx : forall b i, P b -> P (set_id_index b (dict_remove Z.eqb (id_index b) i)).

Lemma get_level_keeps k b : P b -> P (snd (get_level opp k b)).
Proof. unfold get_level. destruct (dict_get _ _ _); auto. Qed.

Lemma execute_loop_keeps fuel k qty rem tside ts ta tl trades b :
  P b -> P (snd (execute_loop fuel opp k qty rem tside ts ta tl trades b)).
Proof.
  revert qty rem trades b. induction fuel as [|fuel IH]; intros qty rem trades b Hb; simpl; auto.
  apply bind_keeps; [now apply get_level_keeps|].
  intros level b1 E H1. apply get_level_inv in E as [-> Hg].
  destruct (lvl_queue level) as [|resting rest]; [exact Hb|].
  destruct (0 <? rem); [|exact Hb].
  apply bind_keeps; [now rewrite Trade_init_state|].
  intros tr b2 E2 H2.
  apply bind_keeps; [|intros; now apply IH].
  destruct (_ =? _).
  - apply bind_keeps; [now apply P_side|]. intros _ b3 _ H3. now apply P_idx.
  - now apply P_side.
Qed.

Lemma execute_against_keeps k qty tside ts ta tl b :
  P b -> P (snd (execute_against opp k qty tside ts ta tl b)).
Proof.
  intros Hb. unfold execute_against. apply bind_keeps; [now apply get_level_keeps|].
  intros; now apply execute_loop_keeps.
Qed.

Lemma match_loop_keeps fuel crosses o tl rem trades b :
  P b -> P (snd (match_loop fuel opp crosses o tl rem trades b)).
Proof.
  revert rem trades b. induction fuel as [|fuel IH]; intros rem trades b Hb; simpl; auto.
  apply bind_keeps; [exact Hb|]. intros b0 b1 E _. inversion E; subst.
  destruct (_ && _); [|exact Hb].
  destruct (best_key b1 opp) as [p|]; [|exact Hb].
  apply bind_keeps; [now apply get_level_keeps|]. intros best b2 E2 _.
  apply get_level_inv in E2 as [-> _].
  destruct (negb (crosses (lvl_price best))); [exact Hb|].
  apply bind_keeps; [now apply execute_against_keeps|]. intros [made filled] b3 _ H3.
  apply bind_keeps; [now apply get_level_keeps|]. intros best' b4 E4 H4.
  apply get_level_inv in E4 as [-> _].
  apply bind_keeps; [|intros; now apply IH].
  destruct (lvl_queue best').
  - unfold del_level. destruct (dict_get _ _ _); simpl; auto.
  - exact H3.
Qed.
End Keeps.

Lemma side_book_set_other b s s' d : s <> s' -> side_book (set_side_book b s d) s' = side_book b s'.
Proof. destruct s, s'; simpl; congruence. Qed.

Lemma opposite_neq s : opposite s <> s.
Proof. destruct s; discriminate. Qed.

(** X5: place_market never changes the book of the order's own side, whether it returns or raises. *)
Theorem place_market_own_side o b :
  side_book (snd (place_market o b)) (o_side o) = side_book b (o_side o).
Proof.
  unfold place_market. destruct (negb (o_is_market o)); [reflexivity|].
  set (P := fun b' => side_book b' (o_side o) = side_book b (o_side o)).
  change (P (snd ((b0 <- get ;; ' (trades, _) <- match_loop (S (List.length (side_book b0 (opposite (o_side o)))))
             (opposite (o_side o)) (fun _ => true) o None (o_qty o) [] ;; ret trades) b))).
  apply bind_keeps; [reflexivity|]. intros b0 b1 E _. inversion E; subst.
  apply bind_keeps; [|intros [? ?] ? _ H; exact H].
  apply match_loop_keeps; unfold P; [| |reflexivity].
  - intros b' d H. rewrite side_book_set_other by apply opposite_neq. exact H.
  - intros b' i H. rewrite side_book_set_idx. exact H.
Qed.

Lemma keys_dict_set {K V} (keq : K -> K -> bool) (d : list (K * V)) k v x :
  In x (map fst (dict_set keq d k v)) -> In x (map fst d) \/ x = k.
Proof.
  induction d as [|[k0 v0] d IH]; simpl; [intuition|].
  destruct (keq k0 k); simpl; intuition.
Qed.

Lemma keys_dict_remove {K V} (keq : K -> K -> bool) (d : list (K * V)) k x :
  In x (map fst (dict_remove keq d k)) -> In x (map fst d).
Proof.
  induction d as [|[k0 v0] d IH]; simpl; auto.
  destruct (keq k0 k); simpl; intuition.
Qed.

Lemma nodup_dict_set {V} (d : list (Z * V)) k v :
  NoDup (map fst d) -> NoDup (map fst (dict_set Z.eqb d k v)).
Proof.
  induction d as [|[k0 v0] d IH]; simpl; intros Hn.
  - constructor; [intros []|constructor].
  - inversion Hn as [|? ? Hk Hd]; subst.
    destruct (Z.eqb_spec k0 k); simpl; constructor; auto.
    intros Hin. apply keys_dict_set in Hin as [Hin|Hin]; auto.
Qed.

Lemma nodup_dict_remove {V} (d : list (Z * V)) k :
  NoDup (map fst d) -> NoDup (map fst (dict_remove Z.eqb d k)).
Proof.
  induction d as [|[k0 v0] d IH]; simpl; intros Hn; auto.
  inversion Hn as [|? ? Hk Hd]; subst.
  destruct (k0 =? k); simpl; auto. constructor; auto.
  intros Hin. apply keys_dict_remove in Hin. auto.
Qed.

Lemma idx_nodup_side b s d : idx_nodup b -> idx_nodup (set_side_book b s d).
Proof. unfold idx_nodup. now rewrite id_index_set_side. Qed.

Lemma idx_nodup_remove b i : idx_nodup b -> idx_nodup (set_id_index b (dict_remove Z.eqb (id_index b) i)).
Proof. apply nodup_dict_remove. Qed.

Lemma place_limit_nodup o b : idx_nodup b -> idx_nodup (snd (place_limit o b)).
Proof.
  intros Hb. unfold place_limit. destruct (o_is_market o); [exact Hb|].
  destruct (o_price o) as [price|]; [|exact Hb].
  apply bind_keeps; [exact Hb|]. intros b0 b1 E _. inversion E; subst.
  destruct (negb _); [exact Hb|].
  apply bind_keeps.
  { apply match_loop_keeps; auto using idx_nodup_side, idx_nodup_remove. }
  intros [trades rem] b2 _ H2. destruct (0 <? rem); [|exact H2].
  apply bind_keeps; [exact H2|]. intros b3 b4 E3 _. inversion E3; subst.
  apply bind_keeps; [now apply idx_nodup_side|]. intros _ b5 _ H5.
  apply bind_keeps; [apply nodup_dict_set, H5|]. intros _ b6 _ H6. exact H6.
Qed.

Lemma place_market_nodup o b : idx_nodup b -> idx_nodup (snd (place_market o b)).
Proof.
  intros Hb. unfold place_market. destruct (negb (o_is_market o)); [exact Hb|].
  apply bind_keeps; [exact Hb|]. intros b0 b1 E _. inversion E; subst.
  apply bind_keeps; [|intros [? ?] ? _ H; exact H].
  apply match_loop_keeps; auto using idx_nodup_side, idx_nodup_remove.
Qed.

Lemma cancel_nodup i b : idx_nodup b -> idx_nodup (snd (cancel i b)).
Proof.
  intros Hb. unfold cancel. apply bind_keeps; [exact Hb|]. intros b0 b1 E _. inversion E; subst.
  destruct (dict_get Z.eqb (id_index b1) i) as [[p s]|]; [|exact Hb].
  destruct (dict_get Qeq_bool (side_book b1 s) p) as [l|]; [|exact Hb].
  destruct (remove_first_id i (lvl_queue l)) as [r q].
  apply bind_keeps; [now apply idx_nodup_side|]. intros _ b2 _ H2.
  apply bind_keeps.
  { destruct q; [|exact H2]. unfold del_level. destruct (dict_get _ _ _); simpl; auto using idx_nodup_side. }
  intros _ b3 _ H3. apply bind_keeps; [|intros _ ? _ H; exact H].
  destruct r; [|exact H3]. unfold idx_del. destruct (dict_get _ _ _); simpl; auto using idx_nodup_remove.
Qed.

Lemma run_book_ops_nodup ops b : idx_nodup b -> idx_nodup (run_book_ops ops b).
Proof.
  revert b. induction ops as [|op ops IH]; intros b Hb; simpl; auto.
  apply IH. destruct op; simpl; auto using place_limit_nodup, place_market_nodup, cancel_nodup.
Qed.

(** X4: On any book built from a fresh OrderBook by place_limit, place_market and cancel calls, cancelling an id a second time after a successful cancel returns False and leaves the book unchanged. *)
Theorem cancel_twice ops tk i b' :
  cancel i (run_book_ops ops (new_book tk)) = (Ok true, b') ->
  cancel i b' = (Ok false, b').
Proof.
  intros H. apply cancel_true_index in H.
  unfold cancel, bind, get. rewrite H, zget_remove_nodup; [reflexivity|].
  apply run_book_ops_nodup. constructor.
Qed.

Lemma total_inventory_set ag k v :
  total_inventory (dict_set String.eqb ag k v) =
  total_inventory ag + inventory v -
  match dict_get String.eqb ag k with Some st => inventory st | None => 0 end.
Proof.
  induction ag as [|[k0 v0] ag IH]; simpl; [lia|].
  destruct (String.eqb k0 k); simpl; [lia|]. rewrite IH. lia.
Qed.

Lemma total_cash_set ag k v :
  (total_cash (dict_set String.eqb ag k v) ==
   total_cash ag + cash v -
   match dict_get String.eqb ag k with Some st => cash st | None => 0 end)%Q.
Proof.
  induction ag as [|[k0 v0] ag IH]; simpl; [ring|].
  destruct (String.eqb k0 k); simpl; [ring|]. rewrite IH. ring.
Qed.

Lemma present_set ag k v k' : present ag k' -> present (dict_set String.eqb ag k v) k'.
Proof.
  intros [st H]. destruct (String.eqb_spec k k') as [->|Hne].
  - exists v. apply sget_sset_same.
  - exists st. rewrite sget_sset_other; auto.
Qed.

Lemma present_set_same ag k v : present (dict_set String.eqb ag k v) k.
Proof. exists v. apply sget_sset_same. Qed.

Lemma present_upd ag k f k' : present ag k' -> present (agent_upd ag k f) k'.
Proof.
  intros Hp. unfold agent_upd. destruct (dict_get _ ag k); auto using present_set.
Qed.

Lemma upd_totals ag k f :
  present ag k ->
  exists st, dict_get String.eqb ag k = Some st /\
  total_inventory (agent_upd ag k f) = total_inventory ag + inventory (f st) - inventory st /\
  (total_cash (agent_upd ag k f) == total_cash ag + cash (f st) - cash st)%Q.
Proof.
  intros [st H]. exists st. unfold agent_upd. rewrite H, total_inventory_set, total_cash_set, H.
  split; [reflexivity|split; [lia|reflexivity]].
Qed.

Lemma ensure_totals ag k :
  let ag' := match dict_get String.eqb ag k with Some _ => ag | None => dict_set String.eqb ag k AgentState0 end in
  total_inventory ag' = total_inventory ag /\ (total_cash ag' == total_cash ag)%Q /\
  present ag' k /\ (forall k', present ag k' -> present ag' k').
Proof.
  simpl. destruct (dict_get String.eqb ag k) as [st|] eqn:E.
  - split; [reflexivity|split; [reflexivity|split; [exists st; exact E|auto]]].
  - rewrite total_inventory_set, total_cash_set, E. simpl.
    split; [lia|split; [ring|split; [apply present_set_same|intros; now apply present_set]]].
Qed.

Lemma agents_after_log (m : Market) r :
  agents (match trades_log m with
          | Some l => set_trades_log m (Some (l ++ [r]))
          | None => m end) = agents m.
Proof. destruct (trades_log m); reflexivity. Qed.

Lemma apply_trade_totals i sd m tr :
  total_inventory (agents (apply_trade i sd m tr)) = total_inventory (agents m) /\
  (total_cash (agents (apply_trade i sd m tr)) ==
   total_cash (agents m) -
   (if String.eqb (buy_agent_id tr) i || String.eqb (sell_agent_id tr) i
    then fee_per_share (cfg m) * inject_Z (tr_qty tr) else 0))%Q.
Proof.
  unfold apply_trade. rewrite agents_after_log. cbn [agents set_agents set_counters set_last_trade_price cfg].
  set (b := buy_agent_id tr). set (s := sell_agent_id tr). set (q := tr_qty tr). set (p := tr_price tr).
  destruct (ensure_totals (agents m) b) as (I1 & C1 & Pb1 & P1).
  set (ag1 := match dict_get String.eqb (agents m) b with Some _ => agents m | None => _ end) in *.
  destruct (ensure_totals ag1 s) as (I2 & C2 & Ps2 & P2).
  set (ag2 := match dict_get String.eqb ag1 s with Some _ => ag1 | None => _ end) in *.
  apply P2 in Pb1.
  destruct (upd_totals ag2 b (add_inventory q) Pb1) as (st3 & _ & I3 & C3).
  set (ag3 := agent_upd ag2 b (add_inventory q)) in *.
  assert (Pb3 := present_upd ag2 b (add_inventory q) b Pb1).
  destruct (upd_totals ag3 b (sub_cash (p * inject_Z q)) Pb3) as (st4 & _ & I4 & C4).
  set (ag4 := agent_upd ag3 b (sub_cash (p * inject_Z q))) in *.
  assert (Ps4 : present ag4 s) by (do 2 apply present_upd; exact Ps2).
  destruct (upd_totals ag4 s (add_inventory (- q)) Ps4) as (st5 & _ & I5 & C5).
  set (ag5 := agent_upd ag4 s (add_inventory (- q))) in *.
  assert (Ps5 := present_upd ag4 s (add_inventory (- q)) s Ps4).
  destruct (upd_totals ag5 s (add_cash (p * inject_Z q)) Ps5) as (st6 & _ & I6 & C6).
  set (ag6 := agent_upd ag5 s (add_cash (p * inject_Z q))) in *.
  assert (Pb6 : present ag6 b) by (do 4 apply present_upd; exact Pb1).
  assert (Ps6 : present ag6 s) by (apply present_upd; exact Ps5).
  cbn [cash inventory add_inventory sub_cash add_cash] in *.
  destruct (String.eqb b i) eqn:Eb; simpl.
  - destruct (upd_totals ag6 b (sub_cash (fee_per_share (cfg m) * inject_Z q)) Pb6) as (st7 & _ & I7 & C7).
    cbn [cash inventory sub_cash] in *.
    split; [lia|]. rewrite C7, C6, C5, C4, C3, C2, C1. ring.
  - destruct (String.eqb s i) eqn:Es; simpl.
    + destruct (upd_totals ag6 s (sub_cash (fee_per_share (cfg m) * inject_Z q)) Ps6) as (st7 & _ & I7 & C7).
      cbn [cash inventory sub_cash] in *.
      split; [lia|]. rewrite C7, C6, C5, C4, C3, C2, C1. ring.
    + split; [lia|]. rewrite C6, C5, C4, C3, C2, C1. ring.
Qed.

(** X8: _apply_trades keeps the total inventory over all agent entries unchanged. It lowers the total cash by exactly fee_per_share * qty for every trade whose buyer or seller is the initiator, so cash moves between buyer and seller otherwise cancel out. *)
Theorem apply_trades_conservation initiator side trades taker m :
  let m' := snd (apply_trades initiator side trades taker m) in
  total_inventory (agents m') = total_inventory (agents m) /\
  (total_cash (agents m') == total_cash (agents m) - taker_fees (cfg m) initiator trades)%Q.
Proof.
  unfold apply_trades, modify. simpl. revert m.
  induction trades as [|tr trs IH]; intros m; simpl.
  - split; [reflexivity|ring].
  - destruct (IH (apply_trade initiator side m tr)) as [I C].
    destruct (apply_trade_totals initiator side m tr) as [I1 C1].
    rewrite apply_trade_cfg in C.
    split; [congruence|]. rewrite C, C1. ring.
Qed.

Lemma apply_trade_counters i sd m tr :
  let m' := apply_trade i sd m tr in
  trades_this_tick m' = trades_this_tick m + 1 /\
  volume_this_tick m' = volume_this_tick m + tr_qty tr /\
  messages_this_tick m' = messages_this_tick m /\
  last_trade_price m' = Some (tr_price tr) /\
  m_book m' = m_book m /\
  option_map (@List.length _) (trades_log m') = option_map (fun n => S n) (option_map (@List.length _) (trades_log m)).
Proof.
  unfold apply_trade. destruct (trades_log m) as [l|] eqn:E; cbn; rewrite ?E; cbn;
    repeat split; try reflexivity.
  all: try (f_equal; rewrite length_app; simpl; lia).
  all: rewrite E; reflexivity.
Qed.

(** X9: _apply_trades adds the number of trades to trades_this_tick and their total quantity to volume_this_tick. It leaves messages_this_tick and the book unchanged. It sets the last trade price to that of the last trade, keeping the old value when there are no trades, and appends one log record per trade when a log is attached. *)
Theorem apply_trades_counters initiator side trades taker m :
  let m' := snd (apply_trades initiator side trades taker m) in
  trades_this_tick m' = trades_this_tick m + Z.of_nat (List.length trades) /\
  volume_this_tick m' = volume_this_tick m + sum_tr_qty trades /\
  messages_this_tick m' = messages_this_tick m /\
  last_trade_price m' = match rev trades with [] => last_trade_price m | tr :: _ => Some (tr_price tr) end /\
  m_book m' = m_book m /\
  option_map (@List.length _) (trades_log m') =
    option_map (fun n => n + List.length trades)%nat (option_map (@List.length _) (trades_log m)).
Proof.
  unfold apply_trades, modify. simpl. revert m.
  induction trades as [|tr trs IH]; intros m; simpl.
  - destruct (trades_log m); simpl; repeat split; try lia; try reflexivity. f_equal; lia.
  - destruct (apply_trade_counters initiator side m tr) as (T1 & V1 & M1 & L1 & B1 & G1).
    destruct (IH (apply_trade initiator side m tr)) as (T & V & M & L & B & G).
    repeat split.
    + rewrite T, T1. lia.
    + rewrite V, V1. lia.
    + congruence.
    + rewrite L. destruct (rev trs) as [|x r] eqn:Er; simpl.
      * exact L1.
      * reflexivity.
    + congruence.
    + rewrite G, G1. destruct (trades_log m); simpl; f_equal; lia.
Qed.

Lemma Qltb_compat a a' b b' : (a == a')%Q -> (b == b')%Q -> Qltb a b = Qltb a' b'.
Proof.
  intros Ha Hb. destruct (Qltb a b) eqn:E, (Qltb a' b') eqn:E'; auto.
  - apply Qltb_true in E. apply Qltb_false in E'. rewrite Ha, Hb in E.
    destruct (Qlt_not_le _ _ E E').
  - apply Qltb_false in E. apply Qltb_true in E'. rewrite Ha, Hb in E.
    destruct (Qlt_not_le _ _ E' E).
Qed.

Lemma py_round_compat x y : (x == y)%Q -> py_round x = py_round y.
Proof.
  intros H. unfold py_round. rewrite (Qfloor_comp _ _ H).
  rewrite (Qltb_compat (x - inject_Z (Qfloor y)) (y - inject_Z (Qfloor y)) (1#2) (1#2)) by (try rewrite H; reflexivity).
  rewrite (Qltb_compat (1#2) (1#2) (x - inject_Z (Qfloor y)) (y - inject_Z (Qfloor y))) by (rewrite ?H; reflexivity).
  reflexivity.
Qed.

Lemma py_round_int n : py_round (inject_Z n) = n.
Proof.
  unfold py_round. rewrite Qfloor_Z.
  replace (Qltb (inject_Z n - inject_Z n) (1 # 2)) with true; [reflexivity|].
  symmetry. apply Qltb_true_iff. ring_simplify. reflexivity.
Qed.

Lemma floor_bounds x : (inject_Z (Qfloor x) <= x /\ x < inject_Z (Qfloor x) + 1)%Q.
Proof.
  split; [apply Qfloor_le|]. pose proof (Qlt_floor x) as H. rewrite inject_Z_plus in H. exact H.
Qed.

(** the three cases of [py_round] *)
Lemma py_round_cases x :
  let f := Qfloor x in
  ((x - inject_Z f < 1 # 2)%Q /\ py_round x = f) \/
  ((1 # 2 < x - inject_Z f)%Q /\ py_round x = f + 1) \/
  ((x - inject_Z f == 1 # 2)%Q /\ py_round x = if Z.even f then f else f + 1).
Proof.
  simpl. unfold py_round.
  destruct (Qltb (x - inject_Z (Qfloor x)) (1 # 2)) eqn:E1.
  - left. split; [now apply Qltb_true|reflexivity].
  - apply Qltb_false in E1.
    destruct (Qltb (1 # 2) (x - inject_Z (Qfloor x))) eqn:E2.
    + right; left. split; [now apply Qltb_true|reflexivity].
    + apply Qltb_false in E2. right; right. split; [now apply Qle_antisym|].
      reflexivity.
Qed.


Lemma py_round_mono x y : (x <= y)%Q -> py_round x <= py_round y.
Proof.
  intros Hxy. destruct (floor_bounds x) as [Fx1 Fx2]. destruct (floor_bounds y) as [Fy1 Fy2].
  assert (Hf : Qfloor x <= Qfloor y) by (apply Qfloor_resp_le; exact Hxy).
  destruct (Z.eq_dec (Qfloor x) (Qfloor y)) as [E|NE].
  - destruct (py_round_cases x) as [[Hx ->]|[[Hx ->]|[Hx ->]]];
    destruct (py_round_cases y) as [[Hy ->]|[[Hy ->]|[Hy ->]]]; rewrite ?E in *;
    try (destruct (Z.even _); lia); try lia; exfalso; lra.
  - assert (Qfloor x + 1 <= Qfloor y) by lia.
    destruct (py_round_cases x) as [[_ ->]|[[_ ->]|[_ ->]]];
    destruct (py_round_cases y) as [[_ ->]|[[_ ->]|[_ ->]]];
    repeat match goal with |- context [Z.even ?z] => destruct (Z.even z) end; lia.
Qed.

Lemma align_div tick_size x : (0 < tick_size)%Q ->
  (align_to_tick tick_size x / tick_size == inject_Z (py_round (x / tick_size)))%Q.
Proof.
  intros Ht. unfold align_to_tick. field. intros H. rewrite H in Ht. discriminate.
Qed.

Lemma align_conforms tick_size x :
  (0 < tick_size)%Q -> conform_price tick_size (align_to_tick tick_size x) = true.
Proof.
  intros Ht. unfold conform_price.
  rewrite (py_round_compat _ _ (align_div tick_size x Ht)), py_round_int.
  apply Qltb_true_iff. unfold align_to_tick.
  setoid_replace (inject_Z (py_round (x / tick_size)) * tick_size - inject_Z (py_round (x / tick_size)) * tick_size)%Q
    with 0%Q by ring.
  reflexivity.
Qed.



(** X18: For a positive tick, the agents' alignment round(x / tick) * tick always gives a price that OrderBook._conform_price accepts. *)
Theorem align_to_tick_conforms tick_size x :
  (0 < tick_size)%Q -> conform_price tick_size (align_to_tick tick_size x) = true.
Proof. apply align_conforms. Qed.



(** X10: For a registered agent, submit_limit at a price not on the book's tick raises ValueError and leaves the book and the latency queue unchanged. The message fee and the message count are still charged, and an order id is still consumed. *)
Theorem submit_limit_misaligned agent_id side price qty m st :
  dict_get String.eqb (agents m) agent_id = Some st ->
  conform_price (tick (m_book m)) price = false ->
  let r := submit_limit agent_id side price qty m in
  fst r = Err ValueError /\
  m_book (snd r) = m_book m /\
  messages_this_tick (snd r) = messages_this_tick m + 1 /\
  next_order_id (snd r) = next_order_id m + 1 /\
  agents (snd r) = dict_set String.eqb (agents m) agent_id (sub_cash (fee_per_message (cfg m)) st) /\
  latq (snd r) = latq m.
Proof.
  intros Hst Hc. unfold submit_limit, charge_message_fee, new_order_id, on_book, place_limit,
    bind, get, modify, ret. cbn. rewrite Hst. cbn. rewrite Hc. cbn.
  repeat split; reflexivity.
Qed.

(** X11: For a registered agent, submit_market against an empty opposite side returns no trades and leaves the book and trades_this_tick unchanged. It still charges the message fee, counts one message and consumes one order id. *)
Theorem submit_market_no_liquidity agent_id side qty m st :
  dict_get String.eqb (agents m) agent_id = Some st ->
  side_book (m_book m) (opposite side) = [] ->
  let r := submit_market agent_id side qty m in
  fst r = Ok [] /\
  m_book (snd r) = m_book m /\
  messages_this_tick (snd r) = messages_this_tick m + 1 /\
  next_order_id (snd r) = next_order_id m + 1 /\
  agents (snd r) = dict_set String.eqb (agents m) agent_id (sub_cash (fee_per_message (cfg m)) st) /\
  trades_this_tick (snd r) = trades_this_tick m.
Proof.
  intros Hst Hopp. unfold submit_market, charge_message_fee, new_order_id, on_book, place_market,
    apply_trades, bind, get, modify, ret. cbn. rewrite Hst. cbn. rewrite Hopp. cbn.
  destruct (0 <? qty); cbn; repeat split; reflexivity.
Qed.

Lemma best_level_found b s p :
  best_key b s = Some p -> exists l, dict_get Qeq_bool (side_book b s) p = Some l.
Proof. intros H. apply dict_get_key_In, best_key_In, H. Qed.

Lemma top_of_book_ok b :
  exists bb ba, top_of_book b = (Ok (bb, ba), b) /\
  (best_key b BUY = None -> bb = None) /\ (best_key b SELL = None -> ba = None).
Proof.
  unfold top_of_book, bind, get, ret, get_level.
  destruct (best_key b BUY) as [p|] eqn:E1;
    [destruct (best_level_found _ _ _ E1) as [l1 H1]; rewrite H1|];
  (destruct (best_key b SELL) as [q|] eqn:E2;
    [destruct (best_level_found _ _ _ E2) as [l2 H2]; rewrite H2|]);
  eexists; eexists; (split; [reflexivity|]); split; intros; congruence.
Qed.

Lemma set_book_same m : set_book m (m_book m) = m.
Proof. destruct m; reflexivity. Qed.

Lemma bind_ok {S A B} (m : SE S A) (k : A -> SE S B) s a s' :
  m s = (Ok a, s') -> bind m k s = k a s'.
Proof. intros H. unfold bind. now rewrite H. Qed.

(** X14: mark_to_market raises KeyError, changing nothing, for an unregistered agent. For a registered one it records a valuation price px in last_value_price and returns cash + inventory * px, with nothing else changed. px is the given price if one is given; otherwise it is the mid (bb + ba) / 2 when both sides are quoted, and 0 when there are no bids and no last trade price. *)
Theorem mark_to_market_effect agent_id price m :
  match dict_get String.eqb (agents m) agent_id with
  | None => mark_to_market agent_id price m = (Err KeyError, m)
  | Some st =>
      exists px,
      mark_to_market agent_id price m =
        (Ok (cash st + inject_Z (inventory st) * px)%Q,
         set_agents m (dict_set String.eqb (agents m) agent_id
           {| cash := cash st; inventory := inventory st; last_value_price := Some px |})) /\
      (forall p, price = Some p -> px = p) /\
      (forall x y, price = None -> fst (top_of_book (m_book m)) = Ok (Some x, Some y) ->
         px = ((x + y) / 2)%Q) /\
      (price = None -> best_key (m_book m) BUY = None -> last_trade_price m = None -> px = 0%Q)
  end.
Proof.
  destruct (top_of_book_ok (m_book m)) as (bb & ba & Htop & Hbb & _).
  assert (Hpx : exists px, (match price with
         | Some p => ret p
         | None =>
             ' (bb, ba) <- on_book top_of_book ;;
             match bb, ba with
             | Some x, Some y => ret ((x + y) / 2)%Q
             | _, _ =>
                 m <- get ;;
                 match last_trade_price m with
                 | Some p => ret p
                 | None => ret 0%Q
                 end
             end
         end) m = (Ok px, m) /\ (forall p, price = Some p -> px = p) /\
      (forall x y, price = None -> fst (top_of_book (m_book m)) = Ok (Some x, Some y) ->
         px = ((x + y) / 2)%Q) /\
      (price = None -> best_key (m_book m) BUY = None -> last_trade_price m = None -> px = 0%Q)).
  { destruct price as [p|].
    - exists p. split; [reflexivity|split; [congruence|split; discriminate]].
    - rewrite Htop. simpl fst. unfold bind at 1, on_book. rewrite Htop, set_book_same.
      destruct bb as [x|], ba as [y|]; unfold get, bind, ret;
        [eexists; split; [reflexivity|split; [discriminate|split; [congruence|intros _ H; specialize (Hbb H); discriminate]]]| | |];
        (destruct (last_trade_price m) as [lp|] eqn:El;
         [exists lp; split; [reflexivity|split; [discriminate|split; [discriminate|congruence]]]
         |exists 0%Q; split; [reflexivity|split; [discriminate|split; [discriminate|reflexivity]]]]). }
  destruct Hpx as (px & Hm & H1 & H2 & H3).
  unfold mark_to_market. rewrite (bind_ok _ _ _ _ _ Hm). unfold bind, get.
  destruct (dict_get String.eqb (agents m) agent_id) as [st|].
  - exists px. split; [reflexivity|auto].
  - reflexivity.
Qed.

Lemma fold_register_get ids acc a :
  dict_get String.eqb (fold_left (fun d a => dict_set String.eqb d a AgentState0) ids acc) a =
  if existsb (String.eqb a) ids then Some AgentState0 else dict_get String.eqb acc a.
Proof.
  revert acc. induction ids as [|x ids IH]; intros acc; simpl; auto.
  rewrite IH. destruct (String.eqb_spec a x) as [->|Hne]; simpl.
  - destruct (existsb _ _); auto. apply sget_sset_same.
  - destruct (existsb _ _); auto. apply sget_sset_other. auto.
Qed.

(** X15: A new Market has a ledger entry AgentState() for exactly the agent ids it was given, and no entry for any other id. *)
Theorem new_market_agents c agent_ids draws a :
  dict_get String.eqb (agents (new_market c agent_ids draws)) a =
  if existsb (String.eqb a) agent_ids then Some AgentState0 else None.
Proof.
  unfold new_market. simpl. rewrite fold_register_get. now destruct (existsb _ _).
Qed.

Lemma schedule_effect a req mk m :
  let m' := snd (schedule a req mk m) in
  fst (schedule a req mk m) = Ok tt /\
  lq_seq (latq m') = lq_seq (latq m) + 1 /\
  rng_pos m' = (rng_pos m + schedule_draws m a)%nat /\
  (pq (latq m') = pq (latq m) \/
   exists arr used lat, pq (latq m') = pq (latq m) ++ [mk arr (lq_seq (latq m) + 1) used lat]) /\
  m_book m' = m_book m /\ agents m' = agents m.
Proof.
  unfold schedule, schedule_draws, bind, get.
  destruct (dict_get String.eqb (m_compute m) a) as [st|].
  - destruct (consume st req) as [[used degraded] st'].
    unfold modify, latency_of, rng_random, latq_next_seq, latq_push, bind, get, modify, ret.
    destruct (Qltb 0 (jitter_ms (latency st))); cbn;
      (destruct degraded; cbn; repeat split; try lia; [left; reflexivity|right; eauto]).
  - unfold latq_next_seq, latq_push, bind, get, modify, ret. cbn.
    repeat split; try lia. right; eauto.
Qed.

Lemma seq_inv_step q q' :
  seq_inv q -> lq_seq q' = lq_seq q + 1 ->
  (pq q' = pq q \/ exists x, pq q' = pq q ++ [x] /\ seq x = lq_seq q + 1) ->
  seq_inv q'.
Proof.
  intros Hq Hs [Hp|(x & Hp & Hx)].
  - destruct Hq as [Hnd Hle]. unfold seq_inv. rewrite Hp, Hs. split; auto.
    eapply Forall_impl; [|exact Hle]. intros y Hy. simpl in Hy. lia.
  - pose proof (next_seq_push_seq_inv q x Hq Hx) as H.
    unfold seq_inv, push, next_seq in *. simpl in H. rewrite Hp, Hs. exact H.
Qed.

Lemma schedule_seq_inv a req mk m :
  (forall arr s used lat, seq (mk arr s used lat) = s) ->
  seq_inv (latq m) -> seq_inv (latq (snd (schedule a req mk m))).
Proof.
  intros Hmk Hq. destruct (schedule_effect a req mk m) as (_ & Hs & _ & Hp & _).
  apply (seq_inv_step _ _ Hq Hs).
  destruct Hp as [Hp|(arr & used & lat & Hp)]; [left; exact Hp|].
  right. eexists; split; [exact Hp|apply Hmk].
Qed.

(** X16: If the latency queue's items have distinct sequence numbers, none above its counter, then schedule_limit and schedule_market keep that invariant. Each call raises the counter by exactly one, leaves the book unchanged, and consumes one RNG draw exactly when the agent has a compute profile with positive jitter. *)
Theorem schedule_seq_rng a req m :
  seq_inv (latq m) ->
  (forall side p qty,
     let m' := snd (schedule_limit a side p qty req m) in
     seq_inv (latq m') /\ lq_seq (latq m') = lq_seq (latq m) + 1 /\
     rng_pos m' = (rng_pos m + schedule_draws m a)%nat /\ m_book m' = m_book m) /\
  (forall side qty,
     let m' := snd (schedule_market a side qty req m) in
     seq_inv (latq m') /\ lq_seq (latq m') = lq_seq (latq m) + 1 /\
     rng_pos m' = (rng_pos m + schedule_draws m a)%nat /\ m_book m' = m_book m).
Proof.
  intros Hq. split.
  - intros side p qty. unfold schedule_limit.
    destruct (schedule_effect a req (fun arrival_t seq used latency_ms =>
      {| arrival_t := arrival_t; seq := seq; intent_type := "limit"; si_agent_id := a;
         si_side := side; si_price := Some p; si_qty := qty; tokens_used := used;
         si_latency_ms := latency_ms |}) m) as (_ & Hs & Hr & _ & Hb & _).
    split; [apply schedule_seq_inv; [reflexivity|exact Hq]|auto].
  - intros side qty. unfold schedule_market.
    destruct (schedule_effect a req (fun arrival_t seq used latency_ms =>
      {| arrival_t := arrival_t; seq := seq; intent_type := "market"; si_agent_id := a;
         si_side := side; si_price := None; si_qty := qty; tokens_used := used;
         si_latency_ms := latency_ms |}) m) as (_ & Hs & Hr & _ & Hb & _).
    split; [apply schedule_seq_inv; [reflexivity|exact Hq]|auto].
Qed.

Section QueueClock.
Variable q0 : LatencyQueue.
Variable t0 : Z.

Lemma charge_message_fee_qc a m : (queue_clock q0 t0) m -> (queue_clock q0 t0) (snd (charge_message_fee a m)).
Proof.
  unfold charge_message_fee, bind, modify, get, raise. cbn.
  destruct (dict_get _ _ _); cbn; auto.
Qed.

Lemma new_order_id_qc m : (queue_clock q0 t0) m -> (queue_clock q0 t0) (snd (new_order_id m)).
Proof. unfold new_order_id, bind, modify, get, ret. cbn. auto. Qed.

Lemma on_book_qc {A} (c : SE OrderBook A) m : (queue_clock q0 t0) m -> (queue_clock q0 t0) (snd (on_book c m)).
Proof. unfold on_book. destruct (c (m_book m)). cbn. auto. Qed.

Lemma apply_trade_qc i sd m tr : (queue_clock q0 t0) m -> (queue_clock q0 t0) (apply_trade i sd m tr).
Proof. unfold queue_clock, apply_trade. destruct (trades_log m) eqn:E; cbn; rewrite E; cbn; auto. Qed.

Lemma apply_trades_qc i sd trs tk m : (queue_clock q0 t0) m -> (queue_clock q0 t0) (snd (apply_trades i sd trs tk m)).
Proof.
  unfold apply_trades, modify. simpl. revert m.
  induction trs as [|tr trs IH]; intros m H; simpl; auto using apply_trade_qc.
Qed.

Lemma submit_limit_qc a s p q m : (queue_clock q0 t0) m -> (queue_clock q0 t0) (snd (submit_limit a s p q m)).
Proof.
  intros H. unfold submit_limit.
  apply bind_keeps; [now apply charge_message_fee_qc|]. intros _ m1 _ H1.
  apply bind_keeps; [now apply new_order_id_qc|]. intros oid m2 _ H2.
  apply bind_keeps; [exact H2|]. intros m3 m4 E _. inversion E; subst.
  apply bind_keeps; [now apply on_book_qc|]. intros trs m5 _ H5.
  apply bind_keeps; [now apply apply_trades_qc|]. intros _ m6 _ H6. exact H6.
Qed.

Lemma submit_market_qc a s q m : (queue_clock q0 t0) m -> (queue_clock q0 t0) (snd (submit_market a s q m)).
Proof.
  intros H. unfold submit_market.
  apply bind_keeps; [now apply charge_message_fee_qc|]. intros _ m1 _ H1.
  apply bind_keeps; [now apply new_order_id_qc|]. intros oid m2 _ H2.
  apply bind_keeps; [exact H2|]. intros m3 m4 E _. inversion E; subst.
  apply bind_keeps; [now apply on_book_qc|]. intros trs m5 _ H5.
  apply bind_keeps; [now apply apply_trades_qc|]. intros _ m6 _ H6. exact H6.
Qed.

Lemma apply_arrivals_qc evs m : (queue_clock q0 t0) m -> (queue_clock q0 t0) (snd (apply_arrivals evs m)).
Proof.
  revert m. induction evs as [|ev evs IH]; intros m H; simpl; [exact H|].
  apply bind_keeps; [|intros; now apply IH].
  destruct (String.eqb (intent_type ev) "limit").
  - destruct (si_price ev) as [p|]; [|exact H].
    apply bind_keeps; [now apply submit_limit_qc|]. intros; assumption.
  - destruct (String.eqb (intent_type ev) "market"); [|exact H].
    apply bind_keeps; [now apply submit_market_qc|]. intros; assumption.
Qed.
End QueueClock.

Lemma pop_ready_rest t q :
  Permutation (pq (snd (pop_ready t q))) (filter (fun x => t <? arrival_t x) (pq q)) /\
  lq_seq (snd (pop_ready t q)) = lq_seq q.
Proof.
  destruct (pop_ready_loop_split (List.length (pq q)) t (pq q) [] (le_n _))
    as (new & _ & E2 & E3 & E4).
  unfold pop_ready. destruct (pop_ready_loop (List.length (pq q)) t (pq q) []) as [out h].
  simpl in *. split; [|reflexivity].
  assert (Hle' : Forall (fun x => (t <? arrival_t x) = false) new).
  { eapply Forall_impl; [|exact E3]. intros x Hx. now apply Z.ltb_ge. }
  assert (Hgt' : Forall (fun x => (t <? arrival_t x) = true) h).
  { eapply Forall_impl; [|exact E4]. intros x Hx. now apply Z.ltb_lt. }
  apply Permutation_sym in E2.
  apply (Permutation_filter_map (fun x => t <? arrival_t x)) in E2.
  rewrite filter_app, (filter_all _ h Hgt'), (filter_none _ new Hle') in E2.
  now apply Permutation_sym.
Qed.

(** X17: Market.step advances t by one and leaves the sequence counter of the latency queue unchanged. Afterwards the queue holds, up to order, exactly the intents whose arrival tick is later than the new t. *)
Theorem step_queue m :
  let m' := snd (step m) in
  t m' = t m + 1 /\ lq_seq (latq m') = lq_seq (latq m) /\
  Permutation (pq (latq m')) (filter (fun x => t m + 1 <? arrival_t x) (pq (latq m))).
Proof.
  destruct (pop_ready_rest (t m + 1) (latq m)) as [Hp Hs].
  unfold step, bind, modify, get. cbn.
  destruct (pop_ready (t m + 1) (latq m)) as [arrivals q] eqn:E. cbn in *.
  assert (H0 : queue_clock q (t m + 1)
    (set_latq (set_counters (set_t m (t m + 1)) 0 0 0) q)) by (split; reflexivity).
  pose proof (apply_arrivals_qc _ _ arrivals _ H0) as H1.
  destruct (apply_arrivals arrivals _) as [[u|e] m1] eqn:E1; cbn in *;
    [unfold on_book; destruct (top_of_book (m_book m1)); cbn|];
    destruct H1 as [-> ->]; auto.
Qed.

Lemma best_key_none b s : best_key b s = None <-> side_book b s = [].
Proof. destruct s; simpl; (destruct (_ b) as [|[k l] d]; simpl; split; congruence). Qed.

(** X7: On any book built from a fresh OrderBook by place_limit, place_market and cancel calls, top_of_book returns normally. Its bid is None exactly when there are no bid levels, and otherwise it is at least every bid level's price. Its ask is None exactly when there are no ask levels, and otherwise it is at most every ask level's price. *)
Theorem top_of_book_extremal ops tick_size :
  let b := run_book_ops ops (new_book tick_size) in
  match fst (top_of_book b) with
  | Ok (obb, oba) =>
      (obb = None <-> bids b = []) /\ (oba = None <-> asks b = []) /\
      (forall x, obb = Some x -> forall k l, In (k, l) (bids b) -> (lvl_price l <= x)%Q) /\
      (forall y, oba = Some y -> forall k l, In (k, l) (asks b) -> (y <= lvl_price l)%Q)
  | Err _ => False
  end.
Proof.
  intros b. assert (Hi : book_inv b) by (apply run_book_ops_inv, book_inv_new).
  destruct Hi as (Kb & Ka & _).
  unfold top_of_book, bind, get, ret, get_level.
  destruct (best_key b BUY) as [p|] eqn:E1;
    [destruct (best_level_found _ _ _ E1) as [l1 H1]; rewrite H1|];
  (destruct (best_key b SELL) as [q|] eqn:E2;
    [destruct (best_level_found _ _ _ E2) as [l2 H2]; rewrite H2|]); simpl;
  pose proof (proj1 (best_key_none b BUY)) as N1; pose proof (proj1 (best_key_none b SELL)) as N2;
  pose proof (proj2 (best_key_none b BUY)) as M1; pose proof (proj2 (best_key_none b SELL)) as M2;
  change (side_book b BUY) with (bids b) in N1, M1;
  change (side_book b SELL) with (asks b) in N2, M2;
  repeat split; intros;
  repeat match goal with H : Some _ = Some _ |- _ => inversion H; subst; clear H end;
  try congruence; auto;
  try (match goal with H : bids b = [] |- _ => apply M1 in H; congruence end);
  try (match goal with H : asks b = [] |- _ => apply M2 in H; congruence end);
  try (exact (best_level_beyond b BUY p l1 Kb E1 H1 _ _ ltac:(eassumption)));
  try (exact (best_level_beyond b SELL q l2 Ka E2 H2 _ _ ltac:(eassumption))).
Qed.

Lemma Trade_init_kwargs_fails {S} tside resting ta price traded ts tl (s : S) :
  Trade_init (trade_kwargs tside resting ta price traded ts tl) s = (Err TypeError, s).
Proof. destruct tside; reflexivity. Qed.

Lemma execute_loop_no_trade fuel s k qty rem tside ts ta tl trades b trs f b' :
  execute_loop fuel s k qty rem tside ts ta tl trades b = (Ok (trs, f), b') -> trs = trades.
Proof.
  destruct fuel as [|fuel]; simpl.
  - unfold ret. intros H; inversion H; auto.
  - unfold bind at 1, get_level.
    destruct (dict_get Qeq_bool (side_book b s) k) as [level|]; [|intros H; inversion H].
    destruct (lvl_queue level) as [|resting rest]; [unfold ret; intros H; inversion H; auto|].
    destruct (0 <? rem); [|unfold ret; intros H; inversion H; auto].
    unfold bind at 1. rewrite Trade_init_kwargs_fails. intros H; inversion H.
Qed.

Lemma execute_against_no_trade s k qty tside ts ta tl b trs f b' :
  execute_against s k qty tside ts ta tl b = (Ok (trs, f), b') -> trs = [].
Proof.
  unfold execute_against, bind at 1. destruct (get_level s k b) as [[l|e] b1]; [|intros H; inversion H].
  apply execute_loop_no_trade.
Qed.

Lemma match_loop_no_trade fuel opp crosses o tl rem trades b trs r b' :
  match_loop fuel opp crosses o tl rem trades b = (Ok (trs, r), b') -> trs = trades.
Proof.
  revert rem trades b. induction fuel as [|fuel IH]; intros rem trades b; simpl.
  - unfold ret. intros H; inversion H; auto.
  - unfold bind at 1, get.
    destruct (_ && _); [|unfold ret; intros H; inversion H; auto].
    destruct (best_key b opp) as [p|]; [|unfold raise; intros H; inversion H].
    unfold bind at 1. destruct (get_level opp p b) as [[best|e] b1]; [|intros H; inversion H].
    destruct (negb _); [unfold ret; intros H; inversion H; auto|].
    unfold bind at 1.
    destruct (execute_against opp p rem (o_side o) (o_ts o) (o_agent_id o) tl b1) as [[[made filled]|e] b2] eqn:E;
      [|intros H; inversion H].
    apply execute_against_no_trade in E. subst made.
    unfold bind at 1. destruct (get_level opp p b2) as [[best'|e] b3]; [|intros H; inversion H].
    unfold bind at 1.
    destruct ((match lvl_queue best' with
               | [] => del_level opp (lvl_price best')
               | _ :: _ => ret tt end) b3) as [[u|e] b4];
      [|intros H; inversion H].
    intros H. apply IH in H. rewrite app_nil_r in H. exact H.
Qed.

(** X6: Whenever place_limit or place_market returns normally, it returns an empty trade list. Building a Trade in _execute_against with the keyword arguments it passes always raises a TypeError, so any real match aborts with an exception. *)
Theorem matching_never_trades o b :
  (forall trs, fst (place_limit o b) = Ok trs -> trs = []) /\
  (forall trs, fst (place_market o b) = Ok trs -> trs = []).
Proof.
  split; intros trs.
  - unfold place_limit. destruct (o_is_market o); [discriminate|].
    destruct (o_price o) as [price|]; [|discriminate].
    unfold bind at 1, get. destruct (negb _); [discriminate|].
    unfold bind at 1.
    match goal with |- context [match_loop ?f ?op ?cr o ?tl ?rm [] b] =>
      destruct (match_loop f op cr o tl rm [] b) as [[[tr r]|e] b1] eqn:E end; [|discriminate].
    apply match_loop_no_trade in E. subst tr.
    destruct (0 <? r); [|unfold ret; simpl; congruence].
    unfold bind, get, put_level, modify, ret. simpl. congruence.
  - unfold place_market. destruct (negb (o_is_market o)); [discriminate|].
    unfold bind at 1, get. unfold bind at 1.
    match goal with |- context [match_loop ?f ?op ?cr o ?tl ?rm [] b] =>
      destruct (match_loop f op cr o tl rm [] b) as [[[tr r]|e] b1] eqn:E end; [|discriminate].
    apply match_loop_no_trade in E. subst tr. unfold ret. simpl. congruence.
Qed.

Section IdsMessages.
Variable n k : Z.

Lemma on_book_im {A} (c : SE OrderBook A) m : (ids_messages n k) m -> (ids_messages n k) (snd (on_book c m)).
Proof. unfold on_book. destruct (c (m_book m)). cbn. auto. Qed.

Lemma apply_trades_im i sd trs tk m : (ids_messages n k) m -> (ids_messages n k) (snd (apply_trades i sd trs tk m)).
Proof.
  unfold apply_trades, modify. simpl. revert m.
  induction trs as [|tr trs IH]; intros m H; simpl; auto.
  apply IH. unfold ids_messages, apply_trade in *. destruct (trades_log m) eqn:E; cbn; rewrite E; cbn; auto.
Qed.
End IdsMessages.

Lemma charge_message_fee_ok a m st :
  dict_get String.eqb (agents m) a = Some st ->
  charge_message_fee a m =
    (Ok tt, set_agents (set_counters m (trades_this_tick m) (volume_this_tick m) (messages_this_tick m + 1))
              (dict_set String.eqb (agents m) a (sub_cash (fee_per_message (cfg m)) st))).
Proof. intros H. unfold charge_message_fee, bind, modify, get. cbn. rewrite H. reflexivity. Qed.

(** X12: For a registered agent, every submit_limit and every submit_market call raises next_order_id by one and messages_this_tick by one, whatever the outcome of the order, including when the book raises. *)
Theorem submit_consumes_id_and_message a m st :
  dict_get String.eqb (agents m) a = Some st ->
  (forall side p q,
     let m' := snd (submit_limit a side p q m) in
     next_order_id m' = next_order_id m + 1 /\ messages_this_tick m' = messages_this_tick m + 1) /\
  (forall side q,
     let m' := snd (submit_market a side q m) in
     next_order_id m' = next_order_id m + 1 /\ messages_this_tick m' = messages_this_tick m + 1).
Proof.
  intros H. split.
  - intros side p q. unfold submit_limit.
    rewrite (bind_ok _ _ _ _ _ (charge_message_fee_ok a m st H)).
    unfold new_order_id at 1. unfold bind at 1 2 3, get, modify, ret. cbn.
    apply bind_keeps; [apply on_book_im; split; reflexivity|].
    intros trs m5 _ H5. apply bind_keeps; [now apply apply_trades_im|]. intros _ m6 _ H6. exact H6.
  - intros side q. unfold submit_market.
    rewrite (bind_ok _ _ _ _ _ (charge_message_fee_ok a m st H)).
    unfold new_order_id at 1. unfold bind at 1 2 3, get, modify, ret. cbn.
    apply bind_keeps; [apply on_book_im; split; reflexivity|].
    intros trs m5 _ H5. apply bind_keeps; [now apply apply_trades_im|]. intros _ m6 _ H6. exact H6.
Qed.

(** X13: For a registered agent, Market.cancel returns what OrderBook.cancel returns (or raises) and leaves the book as OrderBook.cancel leaves it. It also adds one message and deducts fee_per_message from the agent's cash. *)
Theorem market_cancel_charges_fee a order_id m st :
  dict_get String.eqb (agents m) a = Some st ->
  let r := market_cancel a order_id m in
  fst r = fst (cancel order_id (m_book m)) /\
  m_book (snd r) = snd (cancel order_id (m_book m)) /\
  messages_this_tick (snd r) = messages_this_tick m + 1 /\
  agents (snd r) = dict_set String.eqb (agents m) a (sub_cash (fee_per_message (cfg m)) st).
Proof.
  intros H. unfold market_cancel. rewrite (bind_ok _ _ _ _ _ (charge_message_fee_ok a m st H)).
  unfold on_book. cbn -[cancel]. destruct (cancel order_id (m_book m)). cbn -[cancel]. repeat split.
Qed.

Lemma bind_not_err {S A B} (m : SE S A) (k : A -> SE S B) s e :
  fst (m s) <> Err e ->
  (forall a s', m s = (Ok a, s') -> fst (k a s') <> Err e) ->
  fst (bind m k s) <> Err e.
Proof.
  intros H1 H2. unfold bind. destruct (m s) as [[a|e'] s'] eqn:E; simpl in *;
    [exact (H2 a s' eq_refl) | congruence].
Qed.

Lemma get_level_not_err s k b e : e <> KeyError -> fst (get_level s k b) <> Err e.
Proof. intros He. unfold get_level. destruct (dict_get _ _ _); cbn; congruence. Qed.

Lemma execute_loop_no_value_error fuel s k qty rem tside ts ta tl trades b :
  fst (execute_loop fuel s k qty rem tside ts ta tl trades b) <> Err ValueError.
Proof.
  destruct fuel as [|fuel]; cbn -[get_level]; [discriminate|].
  apply bind_not_err; [apply get_level_not_err; discriminate|]. intros level b1 _.
  destruct (lvl_queue level) as [|resting rest]; [cbn; discriminate|].
  destruct (0 <? rem); [|cbn; discriminate].
  unfold bind at 1. rewrite Trade_init_kwargs_fails. cbn. discriminate.
Qed.

Lemma match_loop_no_value_error fuel opp crosses o tl rem trades b :
  fst (match_loop fuel opp crosses o tl rem trades b) <> Err ValueError.
Proof.
  revert rem trades b. induction fuel as [|fuel IH]; intros rem trades b;
    cbn -[get_level execute_against del_level]; [discriminate|].
  destruct (_ && _); [|cbn; discriminate].
  destruct (best_key b opp) as [p|]; [|cbn; discriminate].
  apply bind_not_err; [apply get_level_not_err; discriminate|]. intros best b2 _.
  destruct (negb _); [cbn; discriminate|].
  apply bind_not_err.
  { unfold execute_against. apply bind_not_err; [apply get_level_not_err; discriminate|].
    intros; apply execute_loop_no_value_error. }
  intros [made filled] b3 _.
  apply bind_not_err; [apply get_level_not_err; discriminate|].
  intros best' b4 _. apply bind_not_err; [|intros; apply IH].
  destruct (lvl_queue best'); [unfold del_level; destruct (dict_get _ _ _)|]; cbn; discriminate.
Qed.

Lemma place_limit_no_value_error o b p :
  o_is_market o = false -> o_price o = Some p -> conform_price (tick b) p = true ->
  fst (place_limit o b) <> Err ValueError.
Proof.
  intros Hm Hp Hc. unfold place_limit. rewrite Hm, Hp.
  apply bind_not_err; [cbn; discriminate|]. intros b0 b1 E. inversion E; subst. rewrite Hc. cbn -[match_loop].
  apply bind_not_err; [apply match_loop_no_value_error|]. intros [trs r] b2 _.
  destruct (0 <? r); [|cbn; discriminate].
  repeat (apply bind_not_err; [cbn; discriminate|intros ? ? _]). cbn. discriminate.
Qed.

Lemma place_limit_tick o b : tick (snd (place_limit o b)) = tick b.
Proof.
  set (P := fun b' => tick b' = tick b). change (P (snd (place_limit o b))).
  assert (Hb : P b) by reflexivity.
  unfold place_limit. destruct (o_is_market o); [exact Hb|].
  destruct (o_price o) as [price|]; [|exact Hb].
  apply bind_keeps; [exact Hb|]. intros b0 b1 E _. inversion E; subst.
  destruct (negb _); [exact Hb|].
  apply bind_keeps.
  { apply match_loop_keeps; [intros b' d H; destruct (opposite (o_side o)); exact H|intros b' i H; exact H|exact Hb]. }
  intros [trades rem] b2 _ H2. destruct (0 <? rem); [|exact H2].
  apply bind_keeps; [exact H2|]. intros b3 b4 E3 _. inversion E3; subst.
  apply bind_keeps; [unfold put_level, modify; simpl; destruct (o_side o); exact H2|]. intros _ b5 _ H5.
  apply bind_keeps; [exact H5|]. intros _ b6 _ H6. exact H6.
Qed.

Lemma apply_trades_book i sd trs tk m : m_book (snd (apply_trades i sd trs tk m)) = m_book m.
Proof.
  unfold apply_trades, modify. simpl. revert m.
  induction trs as [|tr trs IH]; intros m; simpl; [reflexivity|].
  rewrite IH. apply (apply_trade_counters i sd m tr).
Qed.

Lemma submit_limit_tick a s p q m :
  tick (m_book (snd (submit_limit a s p q m))) = tick (m_book m).
Proof.
  set (P := fun m' => tick (m_book m') = tick (m_book m)).
  change (P (snd (submit_limit a s p q m))). unfold submit_limit.
  apply bind_keeps.
  { unfold charge_message_fee, bind, modify, get. cbn. destruct (dict_get _ _ _); reflexivity. }
  intros _ m1 _ H1. apply bind_keeps; [exact H1|]. intros oid m2 _ H2.
  apply bind_keeps; [exact H2|]. intros m3 m4 E3 _. inversion E3; subst.
  apply bind_keeps.
  { unfold on_book. destruct (place_limit _ (m_book m4)) as [r b'] eqn:E. simpl.
    unfold P. rewrite <- H2. change b' with (snd (r, b')). rewrite <- E. apply place_limit_tick. }
  intros trs m5 _ H5. apply bind_keeps; [unfold P; rewrite apply_trades_book; exact H5|].
  intros _ m6 _ H6. exact H6.
Qed.

Lemma submit_limit_no_value_error a s p q m :
  conform_price (tick (m_book m)) p = true ->
  fst (submit_limit a s p q m) <> Err ValueError.
Proof.
  intros Hc. unfold submit_limit.
  apply bind_not_err.
  { unfold charge_message_fee, bind, modify, get. cbn. destruct (dict_get _ _ _); cbn; discriminate. }
  intros u m1 E1.
  assert (Hb1 : m_book m1 = m_book m).
  { revert E1. unfold charge_message_fee, bind, modify, get. cbn.
    destruct (dict_get _ _ _); intros H; inversion H; reflexivity. }
  apply bind_not_err; [cbn; discriminate|]. intros oid m2 E2.
  unfold new_order_id, bind, modify, get, ret in E2. inversion E2; subst. cbn -[place_limit].
  apply bind_not_err.
  { unfold on_book. cbn -[place_limit]. rewrite Hb1.
    match goal with |- fst (let '(r, b) := place_limit ?o (m_book m) in _) <> _ =>
      pose proof (place_limit_no_value_error o (m_book m) p eq_refl eq_refl Hc) as H;
      destruct (place_limit o (m_book m)) end.
    exact H. }
  intros trs m5 _. cbn. discriminate.
Qed.

Lemma submit_quotes_no_value_error a qs size m :
  Forall (fun q => conform_price (tick (m_book m)) (snd q) = true) qs ->
  fst (submit_quotes a qs size m) <> Err ValueError.
Proof.
  revert m. induction qs as [|[s p] qs IH]; intros m Hf; simpl; [discriminate|].
  inversion Hf as [|? ? Hp Hr]; subst. simpl in Hp.
  apply bind_not_err; [now apply submit_limit_no_value_error|].
  intros u m' E. apply IH.
  pose proof (submit_limit_tick a s p size m) as T. rewrite E in T. simpl in T. now rewrite T.
Qed.

Lemma mm_quotes_conform inv bb ba tick_size base_spread inv_limit :
  (0 < tick_size)%Q ->
  Forall (fun q => conform_price tick_size (snd q) = true)
    (mm_quotes inv bb ba tick_size base_spread inv_limit).
Proof.
  intros Ht. unfold mm_quotes.
  destruct (_ <=? _); [|destruct (_ <=? _)]; repeat constructor; apply align_conforms; exact Ht.
Qed.

(** X21: When the book's tick equals cfg.tick_size and is positive, MarketMakerSimple.step never fails with ValueError. Its orders are never rejected as misaligned, although it can still raise KeyError for an unregistered agent or TypeError when an order would match. *)
Theorem mm_step_no_value_error a base_spread size inv_limit m :
  (0 < tick_size (cfg m))%Q -> tick (m_book m) = tick_size (cfg m) ->
  fst (mm_step a base_spread size inv_limit m) <> Err ValueError.
Proof.
  intros Ht Hk. unfold mm_step.
  apply bind_not_err; [cbn; discriminate|]. intros m0 m1 E. inversion E; subst.
  destruct (dict_get String.eqb (agents m1) a) as [st|]; [|cbn; discriminate].
  destruct (top_of_book_ok (m_book m1)) as (bb & ba & Htop & _).
  apply bind_not_err; [unfold on_book; rewrite Htop; cbn; discriminate|].
  intros [bb' ba'] m2 E2. unfold on_book in E2. rewrite Htop, set_book_same in E2.
  inversion E2; subst. cbn -[submit_quotes].
  apply submit_quotes_no_value_error. rewrite Hk. now apply mm_quotes_conform.
Qed.

Lemma snapshot_depth_head_witness :
  snapshot_depth demo_book 1 = ([(99%Q, 5)], [(100%Q, 2)]) /\
  (exists rest, fst (snapshot_depth demo_book 1) = (99%Q, depth_at_level demo_book 99%Q BUY) :: rest) /\
  (exists rest, snd (snapshot_depth demo_book 1) = (100%Q, depth_at_level demo_book 100%Q SELL) :: rest).
Proof.
  split; [vm_compute; reflexivity|].
  exact (snapshot_depth_head demo_book 1 ltac:(lia)).
Defined.

Lemma snapshot_depth_sorted_witness :
  snapshot_depth demo_book 5 = ([(99%Q, 5); (98%Q, 3)], [(100%Q, 2); (101%Q, 4)]) /\
  Sorted (fun x y => (fst y <= fst x)%Q) (fst (snapshot_depth demo_book 5)).
Proof.
  split; [vm_compute; reflexivity|].
  apply (snapshot_depth_sorted demo_book 5). lia.
Defined.

Lemma place_limit_cancel_roundtrip_witness :
  depth_at_level (snd (place_limit demo_order demo_book)) 99%Q BUY = 7 /\
  cancel 5 (snd (place_limit demo_order demo_book)) = (Ok true, demo_book).
Proof.
  destruct (place_limit_cancel_roundtrip demo_book demo_order 99%Q) as (_ & H2 & H3).
  - reflexivity.
  - reflexivity.
  - vm_compute. reflexivity.
  - vm_compute. reflexivity.
  - vm_compute. reflexivity.
  - intros l H. vm_compute in H. injection H as <-. split; [discriminate|].
    repeat constructor; discriminate.
  - intros k l H. vm_compute in H.
    destruct H as [H|[H|[]]]; injection H as <- <-; vm_compute; reflexivity.
  - split; [change BUY with (o_side demo_order); rewrite H2; vm_compute; reflexivity|exact H3].
Defined.

Lemma cancel_twice_witness :
  cancel 2 (snd (cancel 2 demo_book)) = (Ok false, snd (cancel 2 demo_book)).
Proof. apply (cancel_twice demo_ops (1 # 100) 2). vm_compute. reflexivity. Defined.

Lemma align_to_tick_conforms_witness :
  (align_to_tick (1 # 100) (100037 # 1000) = 10004 # 100)%Q /\
  conform_price (1 # 100) (align_to_tick (1 # 100) (100037 # 1000)) = true.
Proof. split; [vm_compute; reflexivity|]. apply align_to_tick_conforms. vm_compute. reflexivity. Defined.



Lemma submit_limit_misaligned_witness :
  fst (submit_limit "a" BUY (10003 # 1000) 1 market_a) = Err ValueError /\
  m_book (snd (submit_limit "a" BUY (10003 # 1000) 1 market_a)) = m_book market_a.
Proof.
  destruct (submit_limit_misaligned "a" BUY (10003 # 1000) 1 market_a AgentState0) as (H1 & H2 & _);
    [vm_compute; reflexivity | vm_compute; reflexivity |].
  split; assumption.
Defined.

Lemma submit_market_no_liquidity_witness :
  fst (submit_market "b" BUY 3 market_a) = Ok [] /\
  m_book (snd (submit_market "b" BUY 3 market_a)) = m_book market_a.
Proof.
  destruct (submit_market_no_liquidity "b" BUY 3 market_a AgentState0) as (H1 & H2 & _);
    [vm_compute; reflexivity | vm_compute; reflexivity |].
  split; assumption.
Defined.

Lemma schedule_seq_rng_witness :
  lq_seq (latq (snd (schedule_limit "a" BUY 100%Q 1 1 market_a))) = lq_seq (latq market_a) + 1.
Proof.
  destruct (schedule_seq_rng "a" 1 market_a) as [H _].
  - split; constructor.
  - apply (H BUY 100%Q 1).
Defined.

Lemma submit_consumes_id_and_message_witness :
  next_order_id (snd (submit_limit "a" SELL 100%Q 2 market_a)) = next_order_id market_a + 1.
Proof.
  destruct (submit_consumes_id_and_message "a" market_a AgentState0) as [H _].
  - vm_compute. reflexivity.
  - apply (H SELL 100%Q 2).
Defined.

Lemma market_cancel_charges_fee_witness :
  messages_this_tick (snd (market_cancel "b" 7 market_a)) = messages_this_tick market_a + 1.
Proof.
  destruct (market_cancel_charges_fee "b" 7 market_a AgentState0) as (_ & _ & H & _).
  - vm_compute. reflexivity.
  - exact H.
Defined.

Lemma mm_step_no_value_error_witness :
  fst (mm_step "a" (5 # 100) 1 20 market_a) <> Err ValueError.
Proof. apply mm_step_no_value_error; vm_compute; reflexivity. Defined.
